(** * Verification of the agent core: message parser, terminal manager,
      diff view provider and tool manager.

    The Python sources are embedded shallowly.  Python [str] values are
    sequences of Unicode code points and are modelled as [list N]; dictionaries
    that are only looked up by key are [gmap]s, the parameter dictionary of a
    tool use, whose order is observable, is an association list.  Methods that
    mutate [self] become functions from a state to an outcome and a new
    state; a raised exception is an outcome and keeps the mutations made
    before it. *)

From stdpp Require Import base option list gmap fin_maps strings.
From Stdlib Require Import NArith Ascii DecimalString.

Open Scope N_scope.
Open Scope nat_scope.

(** ** Python strings *)

Abbreviation char := N (only parsing).
Abbreviation str := (list N) (only parsing).

(** A literal of the source, as the sequence of its code points. *)
Definition py (s : string) : str :=
  N_of_ascii <$> String.list_ascii_of_string s.

(** [str(n)] for a non-negative integer. *)
Definition str_of_nat (n : nat) : str :=
  py (NilZero.string_of_uint (Nat.to_uint n)).

(** [s.startswith(sub)] on the remainder of a string. *)
Fixpoint starts_with (sub s : str) : bool :=
  match sub, s with
  | [], _ => true
  | _ :: _, [] => false
  | c :: sub', d :: s' => (c =? d)%N && starts_with sub' s'
  end.

(** Offset of the first occurrence of [sub] in [s]. *)
Fixpoint find_first (sub s : str) : option nat :=
  if starts_with sub s then Some 0
  else match s with
       | [] => None
       | _ :: s' => S <$> find_first sub s'
       end.

(** [s[a:b]] and [s[a:]] for non-negative indices. *)
Definition slice (s : str) (a b : nat) : str := take (b - a) (drop a s).
Definition slice_from (s : str) (a : nat) : str := drop a s.

(** [s.find(sub, start)]: [None] stands for -1. *)
Definition find (sub s : str) (start : nat) : option nat :=
  if start <=? length s
  then (λ k, start + k) <$> find_first sub (slice_from s start)
  else None.

(** [s.find(sub, start, stop)]. *)
Definition find_in (sub s : str) (start stop : nat) : option nat :=
  if start <=? length s
  then (λ k, start + k) <$> find_first sub (slice s start stop)
  else None.

(** [sub in s]. *)
Definition contains (sub s : str) : bool :=
  bool_decide (is_Some (find_first sub s)).

(** [c.isspace()]: the code points CPython treats as whitespace. *)
Definition isspace (c : char) : bool :=
  ((9 <=? c) && (c <=? 13) || (28 <=? c) && (c <=? 32)
   || (c =? 133) || (c =? 160) || (c =? 5760)
   || (8192 <=? c) && (c <=? 8202) || (c =? 8232) || (c =? 8233)
   || (c =? 8239) || (c =? 8287) || (c =? 12288))%N.

Fixpoint lstrip (s : str) : str :=
  match s with
  | c :: s' => if isspace c then lstrip s' else s
  | [] => []
  end.

Definition rstrip (s : str) : str := reverse (lstrip (reverse s)).

(** [s.strip()]. *)
Definition strip (s : str) : str := rstrip (lstrip s).

(** [s.endswith(suffix)]. *)
Definition endswith (s suffix : str) : bool :=
  starts_with (reverse suffix) (reverse s).

(** Truth value of a string: non-empty. *)
Definition truthy (s : str) : bool :=
  match s with [] => false | _ => true end.

Definition LT : char := 60%N.       (* '<' *)
Definition GT : char := 62%N.       (* '>' *)
Definition DOT : char := 46%N.      (* '.' *)
Definition NL : char := 10%N.       (* '\n' *)

(** [s.split("\n")]: never empty. *)
Fixpoint split_nl (s : str) : list str :=
  match s with
  | [] => [[]]
  | c :: s' =>
    if (c =? NL)%N then [] :: split_nl s'
    else match split_nl s' with
         | l :: ls => (c :: l) :: ls
         | [] => [[c]]
         end
  end.

(** ** conversation/parse_assistant_message.py *)

(** [params] is a Python dict: insertion order is kept and an assignment to
    a key already present replaces the value in place. *)
Abbreviation dict := (list (str * str)) (only parsing).

Fixpoint dict_set (k v : str) (d : dict) : dict :=
  match d with
  | [] => [(k, v)]
  | (k', v') :: d' =>
      if decide (k' = k) then (k, v) :: d' else (k', v') :: dict_set k v d'
  end.

Inductive AssistantMessageContent :=
| TextContent (content : str) (partial : bool)
| ToolUse (name : str) (params : dict) (partial : bool).

(** The closing tag [f"</{name}>"]. *)
Definition close_tag (name : str) : str := py "</" ++ name ++ py ">".

(** The inner [while param_start < tool_close_pos] loop; every [break]
    leaves the loop with the parameters collected so far.  [fuel] bounds the
    number of iterations; [None] is fuel exhaustion (see [scan_params_total]). *)
Fixpoint scan_params (fuel : nat) (assistant_message : str)
    (tool_close_pos param_start : nat) (params : dict) : option dict :=
  match fuel with
  | 0 => None
  | S fuel' =>
    if param_start <? tool_close_pos then
      match find_in [LT] assistant_message param_start tool_close_pos with
      | None => Some params
      | Some param_open =>
        match find [GT] assistant_message param_open with
        | None => Some params
        | Some param_close =>
          let param_name := slice assistant_message (param_open + 1) param_close in
          let param_end_tag := close_tag param_name in
          match find param_end_tag assistant_message param_close with
          | None => Some params
          | Some param_end =>
            let param_value :=
              strip (slice assistant_message (param_close + 1) param_end) in
            scan_params fuel' assistant_message tool_close_pos
              (param_end + length param_end_tag)
              (dict_set param_name param_value params)
          end
        end
      end
    else Some params
  end.

(** [all(v.strip() for v in params.values())]. *)
Definition all_values (params : dict) : bool :=
  forallb (λ kv, truthy (strip kv.2)) params.

(** [content_blocks.append(TextContent(...))] guarded by [if text_content:]. *)
Definition append_text (blocks : list AssistantMessageContent)
    (text_content : str) (partial : bool) : list AssistantMessageContent :=
  if truthy text_content then blocks ++ [TextContent text_content partial]
  else blocks.

(** The outer [while i < n] loop. *)
Fixpoint parse_loop (fuel : nat) (assistant_message : str) (i : nat)
    (content_blocks : list AssistantMessageContent)
    : option (list AssistantMessageContent) :=
  match fuel with
  | 0 => None
  | S fuel' =>
    let n := length assistant_message in
    if i <? n then
      if bool_decide (assistant_message !! i = Some LT) then
        let tool_start := i in
        match find [GT] assistant_message tool_start with
        | None =>
          Some (append_text content_blocks
                  (strip (slice_from assistant_message tool_start)) true)
        | Some tool_end =>
          let tool_name := slice assistant_message (tool_start + 1) tool_end in
          let tool_close_tag := close_tag tool_name in
          match find tool_close_tag assistant_message tool_end with
          | None =>
            Some (append_text content_blocks
                    (strip (slice_from assistant_message tool_start)) true)
          | Some tool_close_pos =>
            match scan_params (S n) assistant_message tool_close_pos
                    (tool_end + 1) [] with
            | None => None
            | Some params =>
              let content_blocks' :=
                if all_values params
                then content_blocks ++ [ToolUse tool_name params false]
                else append_text content_blocks
                       (strip (slice assistant_message tool_start
                                 (tool_close_pos + length tool_close_tag)))
                       false in
              parse_loop fuel' assistant_message
                (tool_close_pos + length tool_close_tag) content_blocks'
            end
          end
        end
      else
        let text_start := i in
        match find [LT] assistant_message text_start with
        | None =>
          let text_content := strip (slice_from assistant_message text_start) in
          Some (append_text content_blocks text_content
                  (negb (endswith (strip text_content) [DOT])))
        | Some text_end =>
          let text_content := strip (slice assistant_message text_start text_end) in
          parse_loop fuel' assistant_message text_end
            (append_text content_blocks text_content false)
        end
    else Some content_blocks
  end.

Definition parse_assistant_message (assistant_message : str)
    : option (list AssistantMessageContent) :=
  parse_loop (S (length assistant_message)) assistant_message 0 [].

(** *** Buffers with a tagged span, for the statements about the parser *)

Definition SLASH : char := 47%N.    (* '/' *)

(** A tag or parameter name: free of ['<'], ['>'] and ['/']. *)
Definition identifier (name : str) : Prop :=
  (LT ∉ name) ∧ (GT ∉ name) ∧ (SLASH ∉ name).

(** The text [gap<k>v</k>] of a closed parameter and the text before it. *)
Definition param_text (p : str * str * str) : str :=
  let '(gap, k, v) := p in gap ++ [LT] ++ k ++ [GT] ++ v ++ close_tag k.

Definition params_text (ps : list (str * str * str)) : str :=
  concat (param_text <$> ps).

(** The dictionary the inner loop builds from these parameters. *)
Definition collected (ps : list (str * str * str)) : list (str * str) :=
  foldl (λ d p, dict_set p.1.2 (strip p.2) d) [] ps.

(** A closed parameter the tag [name] can hold. *)
Definition closed_param (name : str) (p : str * str * str) : Prop :=
  (LT ∉ p.1.1) ∧ identifier p.1.2 ∧ p.1.2 ≠ name ∧ (LT ∉ p.2).


(** [<name>], closed parameters, text without a tag, then [</name>]. *)
Definition closed_span (name : str) (ps : list (str * str * str)) (gap : str)
    : str :=
  [LT] ++ name ++ [GT] ++ params_text ps ++ gap ++ close_tag name.

(** The block the parser makes of a stretch of text outside tags: none when
    the text is blank. *)
Definition text_block (text : str) (partial : bool)
    : list AssistantMessageContent :=
  append_text [] (strip text) partial.

(** [block.partial] *)
Definition partial (b : AssistantMessageContent) : bool :=
  match b with
  | TextContent _ p => p
  | ToolUse _ _ p => p
  end.

(** What every emitted block satisfies: a text is trimmed and not empty; a
    tool use is complete and has distinct parameter names whose values are
    trimmed and not empty. *)
Definition tidy (b : AssistantMessageContent) : Prop :=
  match b with
  | TextContent content _ => content ≠ [] ∧ strip content = content
  | ToolUse _ params p =>
    p = false ∧ NoDup params.*1 ∧
    Forall (λ kv, kv.2 ≠ [] ∧ strip kv.2 = kv.2) params
  end.

(** ** Exceptions and stateful methods *)

Inductive exn :=
| ValueError (msg : str)
| KeyError (key : str)
| AttributeError (attr : str)
| RuntimeError
| FileNotFoundError
| FileExistsError
| NotADirectoryError
| IsADirectoryError
| DirectoryNotEmpty.            (* OSError, errno ENOTEMPTY *)

Inductive outcome (A : Type) :=
| Return (a : A)
| Raise (e : exn).
Arguments Return {A} a.
Arguments Raise {A} e.

(** A method over a state [St]: the outcome and the state it leaves, also
    when it raises. *)
Definition M (St A : Type) : Type := St → outcome A * St.

#[global] Instance M_ret {St} : MRet (M St) := λ A a s, (Return a, s).
#[global] Instance M_bind {St} : MBind (M St) := λ A B f m s,
  match m s with
  | (Return a, s') => f a s'
  | (Raise e, s') => (Raise e, s')
  end.

Definition raise {St A} (e : exn) : M St A := λ s, (Raise e, s).
Definition get {St} : M St St := λ s, (Return s, s).
Definition modify {St} (f : St → St) : M St unit := λ s, (Return tt, f s).

(** [for x in xs: body(x)]. *)
Fixpoint for_each {St A} (xs : list A) (body : A → M St unit) : M St unit :=
  match xs with
  | [] => mret tt
  | x :: xs' => body x ;; for_each xs' body
  end.

(** ** file_ops/terminal_manager.py *)

(** [str.lower()] follows the Unicode case tables, which are not embedded:
    only its behaviour on ASCII text is fixed. *)
Definition ascii_lower (c : char) : char :=
  if ((65 <=? c) && (c <=? 90))%N then (c + 32)%N else c.

Class Unicode := {
  lower : str → str;
  lower_ascii : ∀ s, Forall (λ c, (c < 128)%N) s → lower s = ascii_lower <$> s
}.

(** The case mapping of text that holds ASCII letters only. *)
Definition ascii_case : Unicode :=
  {| lower := fmap ascii_lower; lower_ascii := λ _ _, eq_refl |}.

Inductive TerminalEventType :=
| LINE | CONTINUE | COMPLETED | ERROR | NO_SHELL_INTEGRATION.

Record TerminalEvent := {
  type : TerminalEventType;
  data : option str
}.

(** The [subprocess.Popen] handle; [terminate()] signals the child. *)
Record Popen := {
  command : str;
  popen_cwd : option str;
  terminated : bool
}.

(** The handle returned by [loop.call_later]: its delay in seconds and
    whether its callback has run.  A cancelled handle is never referenced
    again, so only the last one is kept. *)
Record TimerHandle := {
  delay : N;
  fired : bool
}.

Definition PROCESS_HOT_TIMEOUT_NORMAL : N := 2.
Definition PROCESS_HOT_TIMEOUT_COMPILING : N := 15.

(** [_buffer] is [None] while the attribute has never been assigned;
    [emitted] logs the events passed to the registered handlers. *)
Record TerminalProcess := {
  _process : option Popen;
  _output_buffer : str;
  _buffer : option str;
  _last_retrieved_index : Z;
  _is_hot : bool;
  _hot_timer : option TimerHandle;
  emitted : list TerminalEvent
}.

(** [TerminalProcess.__init__]: [_buffer] is not among the attributes set. *)
Definition TerminalProcess_init : TerminalProcess := {|
  _process := None;
  _output_buffer := [];
  _buffer := None;
  _last_retrieved_index := 0;
  _is_hot := false;
  _hot_timer := None;
  emitted := []
|}.

Definition set_process (v : option Popen) (p : TerminalProcess) :=
  {| _process := v; _output_buffer := _output_buffer p; _buffer := _buffer p;
     _last_retrieved_index := _last_retrieved_index p; _is_hot := _is_hot p;
     _hot_timer := _hot_timer p; emitted := emitted p |}.
Definition set_output_buffer (v : str) (p : TerminalProcess) :=
  {| _process := _process p; _output_buffer := v; _buffer := _buffer p;
     _last_retrieved_index := _last_retrieved_index p; _is_hot := _is_hot p;
     _hot_timer := _hot_timer p; emitted := emitted p |}.
Definition set_buffer (v : option str) (p : TerminalProcess) :=
  {| _process := _process p; _output_buffer := _output_buffer p; _buffer := v;
     _last_retrieved_index := _last_retrieved_index p; _is_hot := _is_hot p;
     _hot_timer := _hot_timer p; emitted := emitted p |}.
Definition set_last_retrieved_index (v : Z) (p : TerminalProcess) :=
  {| _process := _process p; _output_buffer := _output_buffer p;
     _buffer := _buffer p; _last_retrieved_index := v; _is_hot := _is_hot p;
     _hot_timer := _hot_timer p; emitted := emitted p |}.
Definition set_is_hot (v : bool) (p : TerminalProcess) :=
  {| _process := _process p; _output_buffer := _output_buffer p;
     _buffer := _buffer p; _last_retrieved_index := _last_retrieved_index p;
     _is_hot := v; _hot_timer := _hot_timer p; emitted := emitted p |}.
Definition set_hot_timer (v : option TimerHandle) (p : TerminalProcess) :=
  {| _process := _process p; _output_buffer := _output_buffer p;
     _buffer := _buffer p; _last_retrieved_index := _last_retrieved_index p;
     _is_hot := _is_hot p; _hot_timer := v; emitted := emitted p |}.

(** [_emit]: every registered handler receives the event. *)
Definition _emit (e : TerminalEvent) : M TerminalProcess unit :=
  modify (λ p,
    {| _process := _process p; _output_buffer := _output_buffer p;
       _buffer := _buffer p; _last_retrieved_index := _last_retrieved_index p;
       _is_hot := _is_hot p; _hot_timer := _hot_timer p;
       emitted := emitted p ++ [e] |}).

(** [re.sub(pattern, "", text)] for a pattern that matches no empty string:
    [match_len s] is the length of the match at the head of [s]. *)
Fixpoint re_sub_empty (match_len : str → option nat) (skip : nat) (text : str)
    : str :=
  match text with
  | [] => []
  | c :: text' =>
    match skip with
    | S k => re_sub_empty match_len k text'
    | 0 =>
      match match_len text with
      | Some (S k) => re_sub_empty match_len k text'
      | _ => c :: re_sub_empty match_len 0 text'
      end
    end
  end.

Definition in_range (lo hi c : N) : bool := ((lo <=? c) && (c <=? hi))%N.

Fixpoint skip_class (lo hi : N) (s : str) : str :=
  match s with
  | c :: s' => if in_range lo hi c then skip_class lo hi s' else s
  | [] => []
  end.

(** What is left of [s] after a match of
    [\x1B(?:[@-Z\\-_]|\[[0-?]*[ -/]*[@-~])] at its head.  The three classes
    of the second alternative are disjoint, so the greedy match is the only
    one. *)
Definition ansi_escape (s : str) : option str :=
  match s with
  | 27%N :: c :: s' =>
    if in_range 64 90 c || in_range 92 95 c then Some s'
    else if (c =? 91)%N then
      match skip_class 32 47 (skip_class 48 63 s') with
      | f :: s'' => if in_range 64 126 f then Some s'' else None
      | [] => None
      end
    else None
  | _ => None
  end.

Definition match_length (m : str → option str) (s : str) : option nat :=
  (λ rest, length s - length rest) <$> m s.

Definition _strip_ansi (text : str) : str :=
  re_sub_empty (match_length ansi_escape) 0 text.

Fixpoint until_bel (s : str) : option str :=
  match s with
  | [] => None
  | c :: s' => if (c =? 7)%N then Some s' else until_bel s'
  end.

(** A match of [\x1b\]633;[^\x07]*\x07]. *)
Definition vscode_sequence (s : str) : option str :=
  match s with
  | 27%N :: 93%N :: 54%N :: 51%N :: 51%N :: 59%N :: s' => until_bel s'
  | _ => None
  end.

Definition _handle_vscode_sequences (data : str) : str :=
  re_sub_empty (match_length vscode_sequence) 0 data.

(** The complete lines of a buffer and what follows the last newline. *)
Fixpoint lines_of (buffer : str) : list str * str :=
  match buffer with
  | [] => ([], [])
  | c :: rest =>
    let '(ls, tail) := lines_of rest in
    if (c =? NL)%N then ([] :: ls, tail)
    else match ls with
         | l :: ls' => ((c :: l) :: ls', tail)
         | [] => ([], c :: tail)
         end
  end.

(** [line.rstrip("\r")]. *)
Fixpoint lstrip_cr (s : str) : str :=
  match s with
  | c :: s' => if (c =? 13)%N then lstrip_cr s' else s
  | [] => []
  end.
Definition rstrip_cr (s : str) : str := reverse (lstrip_cr (reverse s)).

(** [_emit_if_eol]: [self._buffer += chunk] reads the attribute first. *)
Definition _emit_if_eol (chunk : str) : M TerminalProcess unit :=
  p ← get;
  match _buffer p with
  | None => raise (AttributeError (py "_buffer"))
  | Some buffer =>
    let '(ls, tail) := lines_of (buffer ++ chunk) in
    for_each ls (λ line,
      _emit {| type := LINE; data := Some (rstrip_cr line) |}) ;;
    modify (set_buffer (Some tail)) ;;
    match ls with
    | [] => mret tt
    | _ :: _ =>
      modify (λ p, set_last_retrieved_index
        (Z.of_nat (length (_output_buffer p)) - Z.of_nat (length tail))%Z p)
    end
  end.

(** [_set_hot_timer]: the handle held is cancelled and replaced. *)
Definition _set_hot_timer (timeout : N) : M TerminalProcess unit :=
  modify (set_hot_timer (Some {| delay := timeout; fired := false |})).

Definition compiling_markers : list str :=
  py <$> ["compiling"; "building"; "bundling"; "transpiling"; "generating";
          "starting"]%string.

Definition marker_nullifiers : list str :=
  py <$> ["compiled"; "success"; "finish"; "complete"; "succeed"; "done";
          "end"; "stop"; "exit"; "terminate"; "error"; "fail"]%string.

Definition is_compiling `{Unicode} (data : str) : bool :=
  existsb (λ marker, contains marker (lower data)) compiling_markers
  && negb (existsb (λ nullifier, contains nullifier (lower data))
             marker_nullifiers).

Definition _update_hot_state `{Unicode} (data : str) : M TerminalProcess unit :=
  let timeout :=
    if is_compiling data then PROCESS_HOT_TIMEOUT_COMPILING
    else PROCESS_HOT_TIMEOUT_NORMAL in
  _set_hot_timer timeout.

Definition _process_output `{Unicode} (data : str) : M TerminalProcess unit :=
  let data := _strip_ansi data in
  let data := _handle_vscode_sequences data in
  modify (λ p, set_output_buffer (_output_buffer p ++ data) p) ;;
  _emit_if_eol data ;;
  _update_hot_state data.

(** [run]: the subprocess is spawned, the session becomes hot and the
    normal timer is armed; the reader thread then runs [_read_output]. *)
Definition run (command : str) (cwd : option str) : M TerminalProcess unit :=
  modify (set_process
    (Some {| command := command; popen_cwd := cwd; terminated := false |})) ;;
  modify (set_is_hot true) ;;
  _set_hot_timer PROCESS_HOT_TIMEOUT_NORMAL.

(** [_read_output], run by the reader thread: [chunks] are the lines the
    subprocess writes before its output stream ends. *)
Definition _read_output `{Unicode} (chunks : list str) : M TerminalProcess unit :=
  p ← get;
  match _process p with
  | Some _ =>
    for_each chunks _process_output ;;
    _emit {| type := COMPLETED; data := None |} ;;
    _emit {| type := CONTINUE; data := None |} ;;
    modify (set_is_hot false)
  | None => mret tt
  end.

(** The callback of the armed timer, [setattr(self, "_is_hot", False)],
    run by the event loop when the delay has elapsed. *)
Definition timer_fires (p : TerminalProcess) : TerminalProcess :=
  match _hot_timer p with
  | Some {| delay := d; fired := false |} =>
    set_is_hot false (set_hot_timer (Some {| delay := d; fired := true |}) p)
  | _ => p
  end.

Definition is_hot (p : TerminalProcess) : bool := _is_hot p.

(** The timer armed last has not fired yet. *)
Definition timer_pending (p : TerminalProcess) : Prop :=
  ∃ d, _hot_timer p = Some {| delay := d; fired := false |}.

(** A session as [run] leaves it, before the reader has seen any output. *)
Definition started (command : str) (cwd : option str) : TerminalProcess :=
  (run command cwd TerminalProcess_init).2.

(** What can happen to a process object: it is started, its reader gets a
    chunk or runs to the end of the output, its timer fires. *)
Inductive process_step `{Unicode} : TerminalProcess → TerminalProcess → Prop :=
| step_run command cwd p : process_step p (run command cwd p).2
| step_output data p : process_step p (_process_output data p).2
| step_read chunks p : process_step p (_read_output chunks p).2
| step_timer p : process_step p (timer_fires p).

Definition process_reachable `{Unicode} (p : TerminalProcess) : Prop :=
  rtc process_step TerminalProcess_init p.

(** *** TerminalManager *)

(** [TerminalProcess] objects are shared by reference between
    [TerminalInfo.process], [_processes] and the callers of [run_command]:
    they live in a store and are named by their address. *)
Abbreviation ref := positive (only parsing).

Record TerminalInfo := {
  terminal_id : nat;
  busy : bool;
  last_command : str;
  process : option ref
}.

Record TerminalManager := {
  objects : gmap ref TerminalProcess;
  _processes : gmap nat ref;
  _terminals : gmap nat TerminalInfo;
  _next_id : nat
}.

(** [TerminalManager.__init__] *)
Definition TerminalManager_init : TerminalManager := {|
  objects := ∅; _processes := ∅; _terminals := ∅; _next_id := 0
|}.

Definition create_terminal (cwd : option str) : M TerminalManager TerminalInfo :=
  λ m,
  let terminal_id := _next_id m in
  let terminal_info :=
    {| terminal_id := terminal_id; busy := false; last_command := [];
       process := None |} in
  (Return terminal_info,
   {| objects := objects m; _processes := _processes m;
      _terminals := <[terminal_id := terminal_info]> (_terminals m);
      _next_id := _next_id m + 1 |}).

(** [process._process.terminate()] on the object at [l]. *)
Definition terminate_at (l : ref) (objs : gmap ref TerminalProcess)
    : gmap ref TerminalProcess :=
  match objs !! l with
  | Some p =>
    match _process p with
    | Some po =>
      <[l := set_process
          (Some {| command := command po; popen_cwd := popen_cwd po;
                   terminated := true |}) p]> objs
    | None => objs
    end
  | None => objs
  end.

Definition remove_terminal (terminal_id : nat) (m : TerminalManager)
    : TerminalManager :=
  let terminals := delete terminal_id (_terminals m) in
  match _processes m !! terminal_id with
  | Some l =>
    {| objects := terminate_at l (objects m);
       _processes := delete terminal_id (_processes m);
       _terminals := terminals; _next_id := _next_id m |}
  | None =>
    {| objects := objects m; _processes := _processes m;
       _terminals := terminals; _next_id := _next_id m |}
  end.

(** [terminal_info.process and not terminal_info.process.is_hot] *)
Definition process_gone_cold (m : TerminalManager) (info : TerminalInfo) : bool :=
  match process info with
  | Some l =>
    match objects m !! l with
    | Some p => negb (is_hot p)
    | None => false
    end
  | None => false
  end.

Definition get_terminal (terminal_id : nat)
    : M TerminalManager (option TerminalInfo) := λ m,
  match _terminals m !! terminal_id with
  | None => (Return None, m)
  | Some terminal_info =>
    if process_gone_cold m terminal_info
    then (Return None, remove_terminal terminal_id m)
    else (Return (Some terminal_info), m)
  end.

(** The attributes [update_terminal] can set through [setattr]. *)
Inductive attr_update :=
| set_terminal_id (v : nat)
| set_busy (v : bool)
| set_last_command (v : str)
| set_info_process (v : option ref).

Definition setattr (u : attr_update) (info : TerminalInfo) : TerminalInfo :=
  match u with
  | set_terminal_id v =>
    {| terminal_id := v; busy := busy info;
       last_command := last_command info; process := process info |}
  | set_busy v =>
    {| terminal_id := terminal_id info; busy := v;
       last_command := last_command info; process := process info |}
  | set_last_command v =>
    {| terminal_id := terminal_id info; busy := busy info;
       last_command := v; process := process info |}
  | set_info_process v =>
    {| terminal_id := terminal_id info; busy := busy info;
       last_command := last_command info; process := v |}
  end.

Definition update_terminal (terminal_id : nat) (updates : list attr_update)
    : M TerminalManager unit :=
  terminal_info ← get_terminal terminal_id;
  match terminal_info with
  | Some info =>
    modify (λ m,
      {| objects := objects m; _processes := _processes m;
         _terminals :=
           <[terminal_id := foldl (λ i u, setattr u i) info updates]>
             (_terminals m);
         _next_id := _next_id m |})
  | None => mret tt
  end.

(** [get_all_terminals]: the loop runs over a snapshot of the keys.  Python
    visits them in insertion order, the model in the order of [elements];
    only the order of the returned list depends on it. *)
Fixpoint collect_terminals (ids : list nat) (active : list TerminalInfo)
    : M TerminalManager (list TerminalInfo) :=
  match ids with
  | [] => mret active
  | terminal_id :: ids' =>
    terminal_info ← get_terminal terminal_id;
    match terminal_info with
    | Some info => collect_terminals ids' (active ++ [info])
    | None => collect_terminals ids' active
    end
  end.

Definition get_all_terminals : M TerminalManager (list TerminalInfo) :=
  m ← get;
  collect_terminals (elements (dom (_terminals m))) [].

(** A fresh address of the object store. *)
Definition fresh_ref (objs : gmap ref TerminalProcess) : ref :=
  fresh (dom objs).

(** [run_command]: a new [TerminalProcess] is registered under a fresh id
    and started; the caller receives the object. *)
Definition run_command (command : str) (cwd : option str)
    : M TerminalManager ref := λ m,
  let l := fresh_ref (objects m) in
  let terminal_id := _next_id m in
  let '(_, p) := run command cwd TerminalProcess_init in
  (Return l,
   {| objects := <[l := p]> (objects m);
      _processes := <[terminal_id := l]> (_processes m);
      _terminals := _terminals m;
      _next_id := _next_id m + 1 |}).

Definition is_process_hot (terminal_id : nat) (m : TerminalManager) : bool :=
  match _processes m !! terminal_id with
  | Some l => from_option is_hot false (objects m !! l)
  | None => false
  end.

(** An event of the object at [l] (its timer firing, its reader running),
    seen from the manager. *)
Definition on_object (l : ref) (f : TerminalProcess → TerminalProcess)
    (m : TerminalManager) : TerminalManager :=
  {| objects := alter f l (objects m); _processes := _processes m;
     _terminals := _terminals m; _next_id := _next_id m |}.

(** What a program can do to a manager: call its methods, and let the
    process objects live. *)
Inductive manager_step : TerminalManager → TerminalManager → Prop :=
| step_create_terminal cwd m : manager_step m (create_terminal cwd m).2
| step_run_command command cwd m : manager_step m (run_command command cwd m).2
| step_get_terminal tid m : manager_step m (get_terminal tid m).2
| step_update_terminal tid us m : manager_step m (update_terminal tid us m).2
| step_remove_terminal tid m : manager_step m (remove_terminal tid m)
| step_get_all_terminals m : manager_step m (get_all_terminals m).2
| step_object l f m : manager_step m (on_object l f m).

Definition manager_reachable (m : TerminalManager) : Prop :=
  rtc manager_step TerminalManager_init m.

(** Ids are handed out below [_next_id], and no id names both a terminal
    and a process. *)
Definition ids_apart (m : TerminalManager) : Prop :=
  (∀ tid, is_Some (_terminals m !! tid) → tid < _next_id m) ∧
  (∀ tid, is_Some (_processes m !! tid) → tid < _next_id m) ∧
  (∀ tid, is_Some (_terminals m !! tid) → _processes m !! tid = None).

(** The terminals a run of [get_terminal] over [ids] removes: those that
    hold a process object whose hot flag is off. *)
Definition culled (m : TerminalManager) (ids : list nat) (terminal_id : nat)
    : bool :=
  bool_decide (terminal_id ∈ ids)
  && from_option (process_gone_cold m) false (_terminals m !! terminal_id).

(** The subprocess of the object at [l] has been sent the termination
    signal. *)
Definition subprocess_terminated (m : TerminalManager) (l : ref) : bool :=
  match objects m !! l with
  | Some p => from_option terminated false (_process p)
  | None => false
  end.


(** *** Retrieving the output *)

(** [s[i:]] for an integer [i]: a negative index counts from the end. *)
Definition slice_from_index (s : str) (i : Z) : str :=
  let n := Z.of_nat (length s) in
  let start := if (i <? 0)%Z then Z.max (n + i) 0 else Z.min i n in
  drop (Z.to_nat start) s.

(** [sep.join(parts)] *)
Fixpoint join (sep : str) (parts : list str) : str :=
  match parts with
  | [] => []
  | part :: parts' =>
    match parts' with
    | [] => part
    | _ => part ++ sep ++ join sep parts'
    end
  end.

Definition is_prompt (c : char) : bool :=
  ((c =? 37) || (c =? 36) || (c =? 35) || (c =? 62))%N.   (* % $ # > *)

(** What is left of [s] after a match of [[%$#>]\s*$] at its head: the
    greedy [\s*] has to reach the end of the string. *)
Definition prompt_artifact (s : str) : option str :=
  match s with
  | c :: s' =>
    if is_prompt c
    then match lstrip s' with [] => Some [] | _ => None end
    else None
  | [] => None
  end.

(** [lines[-1] = re.sub(...)] under [if lines:], which always holds for the
    result of [split]. *)
Definition _remove_last_line_artifacts (output : str) : str :=
  let lines := split_nl (rstrip output) in
  let lines :=
    match last lines with
    | Some line =>
      <[pred (length lines) :=
          re_sub_empty (match_length prompt_artifact) 0 line]> lines
    | None => lines
    end in
  join [NL] lines.

Definition get_unretrieved_output : M TerminalProcess str :=
  p ← get;
  let unretrieved :=
    slice_from_index (_output_buffer p) (_last_retrieved_index p) in
  modify (set_last_retrieved_index (Z.of_nat (length (_output_buffer p)))) ;;
  mret (_remove_last_line_artifacts unretrieved).

(** [TerminalManager.get_unretrieved_output]: the call goes to the object
    registered under the id.  Every reference in [_processes] names an
    object of the store; the branch for one that does not is never taken. *)
Definition TerminalManager_get_unretrieved_output (terminal_id : nat)
    : M TerminalManager str := λ m,
  match _processes m !! terminal_id with
  | Some l =>
    match objects m !! l with
    | Some p =>
      let '(r, p') := get_unretrieved_output p in
      (r, on_object l (λ _, p') m)
    | None => (Return [], m)
    end
  | None => (Return [], m)
  end.

(** [dispose_all]: every registered process object with a subprocess has it
    terminated, and [_processes] is cleared.  Python walks the values in
    insertion order, the model in the order of [map_to_list]; the
    terminations do not depend on one another. *)
Definition dispose_all (m : TerminalManager) : TerminalManager :=
  {| objects :=
       foldl (λ objs l, terminate_at l objs) (objects m)
         (map_to_list (_processes m)).*2;
     _processes := ∅;
     _terminals := _terminals m;
     _next_id := _next_id m |}.

(** The process object of the subprocess [po] once it has been sent the
    termination signal, as [terminate_at] leaves it. *)
Definition terminated_process (p : TerminalProcess) : TerminalProcess :=
  match _process p with
  | Some po =>
    set_process
      (Some {| command := command po; popen_cwd := popen_cwd po;
               terminated := true |}) p
  | None => p
  end.

(** What a lookup of [terminal_id] returns: the terminal, unless it holds a
    process object that has gone cold. *)
Definition tracked (m : TerminalManager) (terminal_id : nat)
    : option TerminalInfo :=
  info ← _terminals m !! terminal_id;
  if process_gone_cold m info then None else Some info.

(** ** The file system *)

(** A path is the list of its components below the root; [..] components
    and symbolic links are not modelled.  The disk maps every existing path
    to what is there. *)
Abbreviation path := (list str) (only parsing).

Inductive node :=
| File (content : str)
| Dir.

#[global] Instance node_eq_dec : EqDecision node.
Proof. solve_decision. Defined.

Definition parent (p : path) : path := take (length p - 1) p.

(** [Path.parents]: the nearest ancestor first, the root last. *)
Definition parents (p : path) : list path :=
  (λ k, take k p) <$> reverse (seq 0 (length p)).

(** Every entry but the root lies in a directory. *)
Definition well_formed (disk : gmap path node) : Prop :=
  disk !! [] = Some Dir ∧
  map_Forall (λ p _, p ≠ [] → disk !! parent p = Some Dir) disk.

#[global] Instance well_formed_dec disk : Decision (well_formed disk).
Proof. unfold well_formed. apply _. Defined.

Definition is_child_of (d q : path) : Prop :=
  length q = S (length d) ∧ take (length d) q = d.

#[global] Instance is_child_of_dec d q : Decision (is_child_of d q).
Proof. unfold is_child_of. apply _. Defined.

(** [not any(d.iterdir())] *)
Definition is_empty_dir (disk : gmap path node) (d : path) : bool :=
  bool_decide (map_Forall (λ q _, ¬ is_child_of d q) disk).

(** A method of an object [Self] that also acts on the disk. *)
Record world (Self : Type) := World {
  self : Self;
  disk : gmap path node
}.
Arguments World {Self} self disk.
Arguments self {Self} w.
Arguments disk {Self} w.

Definition on_self {Self : Type} (f : Self → Self) : M (world Self) unit :=
  modify (λ w, World (f (self w)) (disk w)).
Definition on_disk {Self : Type} (f : gmap path node → gmap path node)
    : M (world Self) unit :=
  modify (λ w, World (self w) (f (disk w))).

(** [p.exists()] *)
Definition exists_ {Self : Type} (p : path) : M (world Self) bool :=
  w ← get; mret (bool_decide (is_Some (disk w !! p))).

(** [p.mkdir()] *)
Definition mkdir {Self : Type} (p : path) : M (world Self) unit :=
  w ← get;
  match disk w !! p with
  | Some _ => raise FileExistsError
  | None =>
    match disk w !! parent p with
    | Some Dir => on_disk <[p := Dir]>
    | Some (File _) => raise NotADirectoryError
    | None => raise FileNotFoundError
    end
  end.

(** [with open(p, "w") as f: f.write(content)] *)
Definition write_file {Self : Type} (p : path) (content : str) : M (world Self) unit :=
  w ← get;
  match disk w !! p with
  | Some Dir => raise IsADirectoryError
  | Some (File _) => on_disk <[p := File content]>
  | None =>
    match disk w !! parent p with
    | Some Dir => on_disk <[p := File content]>
    | Some (File _) => raise NotADirectoryError
    | None => raise FileNotFoundError
    end
  end.

(** [read_local_file] of file_ops/operations.py; permissions and decoding
    errors are not modelled. *)
Definition read_local_file {Self : Type} (p : path) : M (world Self) str :=
  w ← get;
  match disk w !! p with
  | None => raise FileNotFoundError
  | Some Dir => raise RuntimeError
  | Some (File content) => mret content
  end.

(** [p.unlink()] *)
Definition unlink {Self : Type} (p : path) : M (world Self) unit :=
  w ← get;
  match disk w !! p with
  | None => raise FileNotFoundError
  | Some Dir => raise IsADirectoryError
  | Some (File _) => on_disk (delete p)
  end.

(** [any(p.iterdir())] *)
Definition any_iterdir {Self : Type} (p : path) : M (world Self) bool :=
  w ← get;
  match disk w !! p with
  | None => raise FileNotFoundError
  | Some (File _) => raise NotADirectoryError
  | Some Dir => mret (negb (is_empty_dir (disk w) p))
  end.

(** [p.rmdir()] *)
Definition rmdir {Self : Type} (p : path) : M (world Self) unit :=
  w ← get;
  match disk w !! p with
  | None => raise FileNotFoundError
  | Some (File _) => raise NotADirectoryError
  | Some Dir =>
    if is_empty_dir (disk w) p then on_disk (delete p)
    else raise DirectoryNotEmpty
  end.

(** ** conversation/decoration_controller.py *)

Record TextRange := {
  start_line : nat;
  end_line : nat
}.

Record DecorationController := {
  decoration_type : str;
  ranges : list TextRange
}.

Definition DecorationController_init (decoration_type : str)
    : DecorationController :=
  {| decoration_type := decoration_type; ranges := [] |}.

Definition clear (c : DecorationController) : DecorationController :=
  {| decoration_type := decoration_type c; ranges := [] |}.

Definition update_overlay_after_line (line total_lines : nat)
    (c : DecorationController) : DecorationController :=
  let kept := filter (λ r, end_line r < line) (ranges c) in
  {| decoration_type := decoration_type c;
     ranges :=
       if bool_decide (line + 1 < total_lines)
       then kept ++ [{| start_line := line + 1; end_line := total_lines - 1 |}]
       else kept |}.

Definition set_active_line (line : nat) (c : DecorationController)
    : DecorationController :=
  {| decoration_type := decoration_type c;
     ranges := [{| start_line := line; end_line := line |}] |}.

(** ** file_ops/diff_view_provider.py *)

(** The dictionary returned by [_open_diff_view]. *)
Record diff_editor := {
  uri : path;
  line_count : nat
}.

Record DiffViewProvider := {
  cwd : path;
  edit_type : option str;
  is_editing : bool;
  original_content : option str;
  created_dirs : list path;
  document_was_open : bool;
  rel_path : option path;
  new_content : option str;
  active_diff_editor : option diff_editor;
  faded_overlay_controller : option DecorationController;
  active_line_controller : option DecorationController;
  streamed_lines : list str;
  pre_diagnostics : list (str * list str)
}.

(** [DiffViewProvider.__init__] *)
Definition DiffViewProvider_init (cwd : path) : DiffViewProvider := {|
  cwd := cwd; edit_type := None; is_editing := false;
  original_content := None; created_dirs := []; document_was_open := false;
  rel_path := None; new_content := None; active_diff_editor := None;
  faded_overlay_controller := None; active_line_controller := None;
  streamed_lines := []; pre_diagnostics := []
|}.

Definition set_edit_type (v : option str) (d : DiffViewProvider) :=
  {| cwd := cwd d; edit_type := v; is_editing := is_editing d;
     original_content := original_content d; created_dirs := created_dirs d;
     document_was_open := document_was_open d; rel_path := rel_path d;
     new_content := new_content d; active_diff_editor := active_diff_editor d;
     faded_overlay_controller := faded_overlay_controller d;
     active_line_controller := active_line_controller d;
     streamed_lines := streamed_lines d; pre_diagnostics := pre_diagnostics d |}.
Definition set_is_editing (v : bool) (d : DiffViewProvider) :=
  {| cwd := cwd d; edit_type := edit_type d; is_editing := v;
     original_content := original_content d; created_dirs := created_dirs d;
     document_was_open := document_was_open d; rel_path := rel_path d;
     new_content := new_content d; active_diff_editor := active_diff_editor d;
     faded_overlay_controller := faded_overlay_controller d;
     active_line_controller := active_line_controller d;
     streamed_lines := streamed_lines d; pre_diagnostics := pre_diagnostics d |}.
Definition set_original_content (v : option str) (d : DiffViewProvider) :=
  {| cwd := cwd d; edit_type := edit_type d; is_editing := is_editing d;
     original_content := v; created_dirs := created_dirs d;
     document_was_open := document_was_open d; rel_path := rel_path d;
     new_content := new_content d; active_diff_editor := active_diff_editor d;
     faded_overlay_controller := faded_overlay_controller d;
     active_line_controller := active_line_controller d;
     streamed_lines := streamed_lines d; pre_diagnostics := pre_diagnostics d |}.
Definition set_created_dirs (v : list path) (d : DiffViewProvider) :=
  {| cwd := cwd d; edit_type := edit_type d; is_editing := is_editing d;
     original_content := original_content d; created_dirs := v;
     document_was_open := document_was_open d; rel_path := rel_path d;
     new_content := new_content d; active_diff_editor := active_diff_editor d;
     faded_overlay_controller := faded_overlay_controller d;
     active_line_controller := active_line_controller d;
     streamed_lines := streamed_lines d; pre_diagnostics := pre_diagnostics d |}.
Definition set_rel_path (v : option path) (d : DiffViewProvider) :=
  {| cwd := cwd d; edit_type := edit_type d; is_editing := is_editing d;
     original_content := original_content d; created_dirs := created_dirs d;
     document_was_open := document_was_open d; rel_path := v;
     new_content := new_content d; active_diff_editor := active_diff_editor d;
     faded_overlay_controller := faded_overlay_controller d;
     active_line_controller := active_line_controller d;
     streamed_lines := streamed_lines d; pre_diagnostics := pre_diagnostics d |}.
Definition set_new_content (v : option str) (d : DiffViewProvider) :=
  {| cwd := cwd d; edit_type := edit_type d; is_editing := is_editing d;
     original_content := original_content d; created_dirs := created_dirs d;
     document_was_open := document_was_open d; rel_path := rel_path d;
     new_content := v; active_diff_editor := active_diff_editor d;
     faded_overlay_controller := faded_overlay_controller d;
     active_line_controller := active_line_controller d;
     streamed_lines := streamed_lines d; pre_diagnostics := pre_diagnostics d |}.
Definition set_active_diff_editor (v : option diff_editor) (d : DiffViewProvider) :=
  {| cwd := cwd d; edit_type := edit_type d; is_editing := is_editing d;
     original_content := original_content d; created_dirs := created_dirs d;
     document_was_open := document_was_open d; rel_path := rel_path d;
     new_content := new_content d; active_diff_editor := v;
     faded_overlay_controller := faded_overlay_controller d;
     active_line_controller := active_line_controller d;
     streamed_lines := streamed_lines d; pre_diagnostics := pre_diagnostics d |}.
Definition set_controllers (faded active : option DecorationController)
    (d : DiffViewProvider) :=
  {| cwd := cwd d; edit_type := edit_type d; is_editing := is_editing d;
     original_content := original_content d; created_dirs := created_dirs d;
     document_was_open := document_was_open d; rel_path := rel_path d;
     new_content := new_content d; active_diff_editor := active_diff_editor d;
     faded_overlay_controller := faded;
     active_line_controller := active;
     streamed_lines := streamed_lines d; pre_diagnostics := pre_diagnostics d |}.
Definition set_streamed_lines (v : list str) (d : DiffViewProvider) :=
  {| cwd := cwd d; edit_type := edit_type d; is_editing := is_editing d;
     original_content := original_content d; created_dirs := created_dirs d;
     document_was_open := document_was_open d; rel_path := rel_path d;
     new_content := new_content d; active_diff_editor := active_diff_editor d;
     faded_overlay_controller := faded_overlay_controller d;
     active_line_controller := active_line_controller d;
     streamed_lines := v; pre_diagnostics := pre_diagnostics d |}.

Abbreviation Diff := (M (world DiffViewProvider)) (only parsing).

(** The loop of [_create_directories_for_file] over [file_path.parents]. *)
Fixpoint create_missing (ps : list path) (created : list path)
    : Diff (list path) :=
  match ps with
  | [] => mret created
  | parent :: ps' =>
    there ← exists_ parent;
    if there : bool then create_missing ps' created
    else mkdir parent ;; create_missing ps' (created ++ [parent])
  end.

Definition _create_directories_for_file (file_path : path) : Diff (list path) :=
  create_missing (parents file_path) [].

Definition _open_diff_view : Diff diff_editor :=
  w ← get;
  match rel_path (self w) with
  | None => raise (ValueError (py "Relative path not set"))
  | Some rel =>
    mret {| uri := cwd (self w) ++ rel;
            line_count :=
              match original_content (self w) with
              | Some (c :: s) => length (split_nl (c :: s))
              | _ => 0
              end |}
  end.

(** [file_exists = self.edit_type == "modify"] *)
Definition is_modify (d : DiffViewProvider) : bool :=
  bool_decide (edit_type d = Some (py "modify")).

Definition open (rel_path : path) : Diff unit :=
  on_self (set_rel_path (Some rel_path)) ;;
  w ← get;
  let file_exists := is_modify (self w) in
  let absolute_path := cwd (self w) ++ rel_path in
  on_self (set_is_editing true) ;;
  (if file_exists
   then content ← read_local_file absolute_path;
        on_self (set_original_content (Some content))
   else on_self (set_original_content (Some []))) ;;
  created ← _create_directories_for_file absolute_path;
  on_self (set_created_dirs created) ;;
  (if negb file_exists then write_file absolute_path [] else mret tt) ;;
  editor ← _open_diff_view;
  on_self (set_active_diff_editor (Some editor)) ;;
  on_self (set_controllers
    (Some (DecorationController_init (py "fadedOverlay")))
    (Some (DecorationController_init (py "activeLine")))) ;;
  on_self (set_streamed_lines []).


(** The decorations after the loop of [update] over the new lines
    [first, first + 1, ..., first + count - 1]. *)
Fixpoint stream_lines (first count total_lines : nat)
    (faded active : DecorationController)
    : DecorationController * DecorationController :=
  match count with
  | 0 => (faded, active)
  | S count' =>
    stream_lines (S first) count' total_lines
      (update_overlay_after_line first total_lines faded)
      (set_active_line first active)
  end.

Definition _finalize_update (d : DiffViewProvider) : DiffViewProvider :=
  set_controllers (clear <$> faded_overlay_controller d)
                  (clear <$> active_line_controller d) d.

Definition update (accumulated_content : str) (is_final : bool) : Diff unit :=
  w ← get;
  match rel_path (self w), active_line_controller (self w),
        faded_overlay_controller (self w) with
  | Some _, Some active, Some faded =>
    on_self (set_new_content (Some accumulated_content)) ;;
    let accumulated_lines :=
      if is_final then split_nl accumulated_content
      else removelast (split_nl accumulated_content) in
    let streamed := length (streamed_lines (self w)) in
    let diff_lines := drop streamed accumulated_lines in
    let '(faded', active') :=
      stream_lines streamed (length diff_lines) (length accumulated_lines)
        faded active in
    on_self (set_controllers (Some faded') (Some active')) ;;
    on_self (set_streamed_lines accumulated_lines) ;;
    if is_final then on_self _finalize_update else mret tt
  | _, _, _ => raise (ValueError (py "Required values not set"))
  end.

(** The dictionary returned by [save_changes]. *)
Record save_result := {
  new_problems_message : option str;
  user_edits : option str;
  final_content : option str
}.

Definition save_changes : Diff save_result :=
  w ← get;
  match rel_path (self w), new_content (self w), active_diff_editor (self w) with
  | Some rel, Some (c :: s), Some _ =>
    let absolute_path := cwd (self w) ++ rel in
    let updated_content := c :: s in
    write_file absolute_path updated_content ;;
    mret {| new_problems_message := Some [];
            user_edits := None;
            final_content := Some updated_content |}
  | _, _, _ =>
    mret {| new_problems_message := None; user_edits := None;
            final_content := None |}
  end.

(** [reset] leaves [cwd], [rel_path] and [new_content] as they are. *)
Definition reset : Diff unit :=
  on_self (λ d,
    {| cwd := cwd d; edit_type := None; is_editing := false;
       original_content := None; created_dirs := [];
       document_was_open := false; rel_path := rel_path d;
       new_content := new_content d; active_diff_editor := None;
       faded_overlay_controller := None; active_line_controller := None;
       streamed_lines := []; pre_diagnostics := [] |}).

(** The body of the loop of [revert_changes] over the created directories. *)
Definition remove_if_empty (dir_path : path) : Diff unit :=
  there ← exists_ dir_path;
  if there : bool then
    occupied ← any_iterdir dir_path;
    if occupied : bool then mret tt else rmdir dir_path
  else mret tt.

Definition revert_changes : Diff unit :=
  w ← get;
  match rel_path (self w) with
  | None => mret tt
  | Some rel =>
    let absolute_path := cwd (self w) ++ rel in
    let file_exists := is_modify (self w) in
    (if negb file_exists then
       unlink absolute_path ;;
       for_each (reverse (created_dirs (self w))) remove_if_empty
     else
       write_file absolute_path (default [] (original_content (self w)))) ;;
    reset
  end.

(** The provider holds the session [open] has set up for [rel]: what
    [update] and [save_changes] look at before they act. *)
Definition session_open (rel : path) (d : DiffViewProvider) : Prop :=
  rel_path d = Some rel ∧ is_Some (active_diff_editor d) ∧
  is_Some (faded_overlay_controller d) ∧ is_Some (active_line_controller d).

(** A sequence of calls of [update], each with the content accumulated so
    far and its [is_final] flag. *)
Definition updates (calls : list (str * bool)) : Diff unit :=
  for_each calls (λ u, update u.1 u.2).

(** ** tools/tool_manager.py *)

(** [BasicTool] of tool_manager.py (the function is named, not embedded)
    and [ExtendedTool] of extended_tools.py. *)
Inductive tool :=
| BasicTool (func : str) (description : str) (editable : bool)
| ExtendedTool (name : str) (description : str) (editable : bool).

Definition description (t : tool) : str :=
  match t with
  | BasicTool _ d _ => d
  | ExtendedTool _ d _ => d
  end.

Definition editable (t : tool) : bool :=
  match t with
  | BasicTool _ _ e => e
  | ExtendedTool _ _ e => e
  end.

(** [tool.description = description] *)
Definition set_description (d : str) (t : tool) : tool :=
  match t with
  | BasicTool f _ e => BasicTool f d e
  | ExtendedTool n _ e => ExtendedTool n d e
  end.

Record ToolVersion := {
  version : str;
  timestamp : str;
  checksum : str;
  version_description : str
}.

(** The module-level dictionary [EXTENDED_TOOLS] and one [ToolManager]. *)
Record registry := {
  EXTENDED_TOOLS : gmap str tool;
  tools : gmap str tool;
  tool_versions : gmap str (list ToolVersion)
}.

(** The tools seeded by [ToolManager.__init__], in the order of the source. *)
Definition seeded_tools : list (str * tool) :=
  (λ '(name, func, descr), (py name, BasicTool (py func) (py descr) false)) <$>
  [ ("read_file", "read_local_file", "Read the contents of a file");
    ("write_to_file", "create_file", "Write content to a file");
    ("replace_in_file", "apply_diff_edit", "Make targeted edits to a file");
    ("ensure_file_in_context", "ensure_file_in_context",
       "Ensure file is in context");
    ("execute_command", "execute_system_command",
       "Execute CLI commands on the system");
    ("search_files", "search_files_regex", "Perform regex search across files");
    ("list_files", "list_directory_contents", "List files and directories");
    ("list_code_definition_names", "list_code_definitions",
       "List source code definitions");
    ("ask_followup_question", "ask_user_question",
       "Ask the user a follow-up question");
    ("attempt_completion", "complete_task", "Present the result of a task");
    ("add_tool", "self.add_tool", "Add a new tool");
    ("update_tool", "self.update_tool", "Update an existing tool");
    ("remove_tool", "self.remove_tool", "Remove an existing tool")
  ]%string.

Definition basic_tool_names : list str := seeded_tools.*1.

(** [ToolManager.__init__]: in the dictionary display the entries of
    [EXTENDED_TOOLS] come last and win. *)
Definition ToolManager_init (extended : gmap str tool) : registry := {|
  EXTENDED_TOOLS := extended;
  tools := extended ∪ list_to_map seeded_tools;
  tool_versions := ∅
|}.

Definition get_tool (name : str) : M registry tool := λ r,
  match tools r !! name with
  | None => (Raise (ValueError (py "Tool '" ++ name ++ py "' not found")), r)
  | Some t => (Return t, r)
  end.

Definition get_tool_versions (name : str) (r : registry) : list ToolVersion :=
  default [] (tool_versions r !! name).

Section tool_manager.
(** [hashlib.md5(code.encode()).hexdigest()] *)
Context (md5_hexdigest : str → str).

(** [now] is the reading of [datetime.now().isoformat()]. *)
Definition _create_new_version (now name code description : str)
    : M registry unit :=
  modify (λ r,
    let checksum := md5_hexdigest code in
    let log := default [] (tool_versions r !! name) in
    let version :=
      {| version := str_of_nat (length log + 1);
         timestamp := now;
         checksum := checksum;
         version_description := description |} in
    {| EXTENDED_TOOLS := EXTENDED_TOOLS r; tools := tools r;
       tool_versions := <[name := log ++ [version]]> (tool_versions r) |}).

Definition _validate_tool_code (code : str) : M registry unit :=
  if contains (py "import os") code || contains (py "import sys") code
  then raise (ValueError (py "Tool code cannot import restricted modules"))
  else if contains (py "subprocess") code
  then raise (ValueError (py "Tool code cannot use subprocess"))
  else mret tt.

Definition add_tool (now name description code : str) : M registry unit :=
  r ← get;
  if bool_decide (is_Some (tools r !! name))
  then raise (ValueError (py "Tool '" ++ name ++ py "' already exists"))
  else
    _validate_tool_code code ;;
    let new_tool := ExtendedTool name description true in
    modify (λ r,
      {| EXTENDED_TOOLS := <[name := new_tool]> (EXTENDED_TOOLS r);
         tools := <[name := new_tool]> (tools r);
         tool_versions := tool_versions r |}) ;;
    _create_new_version now name code description.

Definition update_tool (now name code description : str) : M registry unit :=
  r ← get;
  if bool_decide (is_Some (EXTENDED_TOOLS r !! name)) then
    _validate_tool_code code ;;
    match tools r !! name with
    | None => raise (KeyError name)
    | Some _ =>
      modify (λ r,
        {| EXTENDED_TOOLS := alter (set_description description) name
                               (EXTENDED_TOOLS r);
           tools := alter (set_description description) name (tools r);
           tool_versions := tool_versions r |}) ;;
      _create_new_version now name code description
    end
  else
    raise (ValueError (py "Tool '" ++ name ++ py "' is not an extended tool")).

Definition remove_tool (name : str) : M registry unit :=
  r ← get;
  if bool_decide (is_Some (EXTENDED_TOOLS r !! name)) then
    match tools r !! name with
    | None => raise (KeyError name)
    | Some _ =>
      modify (λ r,
        {| EXTENDED_TOOLS := delete name (EXTENDED_TOOLS r);
           tools := delete name (tools r);
           tool_versions := delete name (tool_versions r) |})
    end
  else
    raise (ValueError (py "Tool '" ++ name ++ py "' is not an extended tool")).

(** A call of one of the three mutating methods. *)
Inductive call :=
| call_add (now name description code : str)
| call_update (now name code description : str)
| call_remove (name : str).

Definition perform (c : call) : M registry unit :=
  match c with
  | call_add now name description code => add_tool now name description code
  | call_update now name code description =>
    update_tool now name code description
  | call_remove name => remove_tool name
  end.

(** The registries a program can reach: the module is loaded with an
    empty [EXTENDED_TOOLS], a manager is constructed, and methods are
    called on it; a call that raises leaves whatever it has written. *)
Inductive reachable : registry → Prop :=
| reachable_init : reachable (ToolManager_init ∅)
| reachable_call r c : reachable r → reachable (perform c r).2.
End tool_manager.

(** The entry [_create_new_version] appends for [name]. *)
Definition appended_version (md5_hexdigest : str → str)
    (now name code description : str) (r : registry) : ToolVersion :=
  {| version := str_of_nat (length (get_tool_versions name r) + 1);
     timestamp := now;
     checksum := md5_hexdigest code;
     version_description := description |}.

(** The messages of the two errors a name can be refused with. *)
Definition already_exists (name : str) : exn :=
  ValueError (py "Tool '" ++ name ++ py "' already exists").
Definition not_an_extended_tool (name : str) : exn :=
  ValueError (py "Tool '" ++ name ++ py "' is not an extended tool").

(** Stands for the digest in examples whose outcome does not depend on it. *)
Definition no_digest : str → str := λ _, [].




(** * Properties *)

(** ** Strings *)

Lemma starts_with_app (sub r : str) : starts_with sub (sub ++ r) = true.
Proof.
  induction sub as [|c sub IH]; simpl; [done|].
  by rewrite N.eqb_refl.
Qed.

Lemma starts_with_true (sub s : str) :
  starts_with sub s = true ↔ ∃ r, s = sub ++ r.
Proof.
  split.
  - revert s. induction sub as [|c sub IH]; intros s Hs; simpl in *.
    + by exists s.
    + destruct s as [|d s]; [done|].
      apply andb_true_iff in Hs as [Hc Hs]. apply N.eqb_eq in Hc as ->.
      destruct (IH _ Hs) as [r ->]. by exists r.
  - intros [r ->]. apply starts_with_app.
Qed.

Lemma starts_with_head (c d : N) (sub s : str) :
  c ≠ d → starts_with (c :: sub) (d :: s) = false.
Proof. intros Hne. simpl. by apply N.eqb_neq in Hne as ->. Qed.

(** No occurrence of a string starts inside a stretch that lacks its first
    character. *)
Lemma find_first_skip (c : N) (sub l r : str) :
  c ∉ l →
  find_first (c :: sub) (l ++ r) = (λ k, length l + k) <$> find_first (c :: sub) r.
Proof.
  induction l as [|d l IH]; intros Hl.
  - simpl. destruct (find_first _ r); done.
  - apply not_elem_of_cons in Hl as [Hd Hl].
    change ((d :: l) ++ r) with (d :: (l ++ r)).
    cbn [find_first]. rewrite starts_with_head by done.
    rewrite IH by done. destruct (find_first (c :: sub) r); done.
Qed.

Lemma find_first_here (sub r : str) : find_first sub (sub ++ r) = Some 0.
Proof. destruct sub, r; simpl; rewrite ?N.eqb_refl, ?starts_with_app; done. Qed.

Lemma find_first_absent (c : N) (sub l : str) :
  c ∉ l → find_first (c :: sub) l = None.
Proof.
  intros Hl. rewrite <-(app_nil_r l), find_first_skip by done. done.
Qed.

Lemma find_first_char (c : N) (l r : str) :
  c ∉ l → find_first [c] (l ++ c :: r) = Some (length l).
Proof.
  intros Hl. rewrite find_first_skip by done.
  change (c :: r) with ([c] ++ r). rewrite find_first_here. simpl.
  by rewrite Nat.add_0_r.
Qed.

Lemma find_first_ge (sub s : str) (k : nat) :
  find_first sub s = Some k → k + length sub ≤ length s.
Proof.
  revert k. induction s as [|d s IH]; intros k; simpl.
  - destruct (starts_with sub []) eqn:E; [|done].
    intros [= <-]. apply starts_with_true in E as [r E].
    symmetry in E. apply app_eq_nil in E as [-> _]. done.
  - destruct (starts_with sub (d :: s)) eqn:E.
    + intros [= <-]. apply starts_with_true in E as [r E].
      apply (f_equal length) in E. rewrite length_app in E. simpl in *. lia.
    + destruct (find_first sub s) as [j|]; [|done].
      intros [= <-]. specialize (IH j eq_refl). lia.
Qed.

Lemma find_app (sub a r : str) :
  find sub (a ++ r) (length a) = (λ k, length a + k) <$> find_first sub r.
Proof.
  unfold find, slice_from. rewrite length_app.
  destruct (Nat.leb_spec (length a) (length a + length r)); [|lia].
  by rewrite drop_app_length.
Qed.

Lemma find_bounds (sub s : str) (start k : nat) :
  find sub s start = Some k → start ≤ k ∧ k + length sub ≤ length s.
Proof.
  unfold find, slice_from.
  destruct (Nat.leb_spec start (length s)); [|done].
  destruct (find_first sub (drop start s)) as [j|] eqn:E; [|done].
  intros [= <-]. apply find_first_ge in E. rewrite length_drop in E. lia.
Qed.

Lemma find_in_bounds (sub s : str) (start stop k : nat) :
  find_in sub s start stop = Some k → start ≤ k ∧ k + length sub ≤ length s.
Proof.
  unfold find_in, slice.
  destruct (Nat.leb_spec start (length s)); [|done].
  destruct (find_first sub (take (stop - start) (drop start s))) as [j|] eqn:E;
    [|done].
  intros [= <-]. apply find_first_ge in E.
  rewrite length_take, length_drop in E. lia.
Qed.

(** *** Trimming *)

Definition clean_head (s : str) : Prop :=
  match s with
  | [] => True
  | c :: _ => isspace c = false
  end.

Lemma lstrip_clean (s : str) : clean_head (lstrip s).
Proof.
  induction s as [|c s IH]; simpl; [done|].
  destruct (isspace c) eqn:E; simpl; done.
Qed.

Lemma lstrip_id (s : str) : clean_head s → lstrip s = s.
Proof. destruct s as [|c s]; simpl; [done|]. by intros ->. Qed.

Lemma lstrip_split (s : str) :
  ∃ ws, s = ws ++ lstrip s ∧ Forall (λ c, isspace c = true) ws.
Proof.
  induction s as [|c s (ws & IH & Hws)]; simpl.
  - by exists [].
  - destruct (isspace c) eqn:E.
    + exists (c :: ws). split; [by rewrite IH at 1|by constructor].
    + by exists [].
Qed.

Lemma rstrip_split (s : str) :
  ∃ ws, s = rstrip s ++ ws ∧ Forall (λ c, isspace c = true) ws.
Proof.
  destruct (lstrip_split (reverse s)) as (ws & E & Hws).
  exists (reverse ws). split.
  - unfold rstrip. rewrite <-reverse_app, <-E. by rewrite reverse_involutive.
  - by apply Forall_reverse.
Qed.

Lemma rstrip_clean_head (s : str) : clean_head s → clean_head (rstrip s).
Proof.
  intros Hs. destruct (rstrip_split s) as (ws & E & Hws).
  destruct (rstrip s) as [|c r]; [done|].
  rewrite E in Hs. done.
Qed.

Lemma rstrip_idemp (s : str) : rstrip (rstrip s) = rstrip s.
Proof.
  unfold rstrip. rewrite reverse_involutive.
  by rewrite (lstrip_id (lstrip _)) by apply lstrip_clean.
Qed.

Lemma strip_idemp (s : str) : strip (strip s) = strip s.
Proof.
  unfold strip.
  rewrite (lstrip_id (rstrip _)) by apply rstrip_clean_head, lstrip_clean.
  apply rstrip_idemp.
Qed.

Lemma find_first_starts (sub s : str) (k : nat) :
  find_first sub s = Some k → starts_with sub (drop k s) = true.
Proof.
  revert k. induction s as [|d s IH]; intros k; simpl.
  - destruct (starts_with sub []) eqn:E; [|done]. by intros [= <-].
  - destruct (starts_with sub (d :: s)) eqn:E; [by intros [= <-]|].
    destruct (find_first sub s) as [j|]; [|done].
    intros [= <-]. simpl. by apply IH.
Qed.

Lemma find_char_at (c : N) (s : str) (start k : nat) :
  find [c] s start = Some k → s !! k = Some c.
Proof.
  unfold find, slice_from.
  destruct (Nat.leb_spec start (length s)); [|done].
  destruct (find_first [c] (drop start s)) as [j|] eqn:E; [|done].
  intros [= <-]. apply find_first_starts in E.
  rewrite drop_drop in E.
  destruct (drop (start + j) s) as [|d r] eqn:Ed; [done|].
  simpl in E. apply andb_true_iff in E as [E _]. apply N.eqb_eq in E as ->.
  rewrite <-(Nat.add_0_r (start + j)), <-lookup_drop, Ed. done.
Qed.

Lemma find_char_absent (c : N) (s : str) (start : nat) :
  c ∉ s → find [c] s start = None.
Proof.
  intros Hc. unfold find, slice_from.
  destruct (start <=? length s); [|done].
  rewrite find_first_absent; [done|].
  intros Hin. apply Hc. by eapply subseteq_drop.
Qed.

Lemma length_close_tag (name : str) : length (close_tag name) = length name + 3.
Proof. unfold close_tag. rewrite !length_app. simpl. lia. Qed.

(** ** The message parser *)

Lemma scan_params_total (fuel : nat) (s : str) (c ps : nat) (d : list (str * str)) :
  c - ps < fuel → is_Some (scan_params fuel s c ps d).
Proof.
  revert ps d. induction fuel as [|fuel IH]; intros ps d Hfuel; [lia|].
  cbn [scan_params]. destruct (Nat.ltb_spec ps c); [|done].
  destruct (find_in [LT] s ps c) as [o|] eqn:Eo; [|done].
  destruct (find [GT] s o) as [pc|] eqn:Epc; [|done].
  destruct (find (close_tag _) s pc) as [pe|] eqn:Epe; [|done].
  apply IH.
  apply find_in_bounds in Eo. apply find_bounds in Epc. apply find_bounds in Epe.
  rewrite length_close_tag. lia.
Qed.

Lemma parse_loop_total (fuel : nat) (s : str) (i : nat)
    (blocks : list AssistantMessageContent) :
  length s - i < fuel → is_Some (parse_loop fuel s i blocks).
Proof.
  revert i blocks. induction fuel as [|fuel IH]; intros i blocks Hfuel; [lia|].
  cbn [parse_loop]. destruct (Nat.ltb_spec i (length s)); [|done].
  case_bool_decide as Hi.
  - destruct (find [GT] s i) as [e|] eqn:Ee; [|done].
    destruct (find (close_tag _) s e) as [c|] eqn:Ec; [|done].
    pose proof (find_bounds _ _ _ _ Ee). pose proof (find_bounds _ _ _ _ Ec).
    destruct (scan_params_total (S (length s)) s c (e + 1) []) as [d ->]; [lia|].
    apply IH. rewrite length_close_tag. lia.
  - destruct (find [LT] s i) as [k|] eqn:Ek; [|done].
    apply IH. pose proof (find_bounds _ _ _ _ Ek).
    apply find_char_at in Ek.
    assert (k ≠ i) by (intros ->; done). lia.
Qed.

(** The parser returns on every message. *)
Lemma parse_assistant_message_total (s : str) :
  is_Some (parse_assistant_message s).
Proof. apply parse_loop_total. lia. Qed.

(** C8, as stated, fails on a blank buffer: it has no ['<'] and the parser
    returns no block at all. *)
Lemma parse_blank_no_block :
  (LT ∉ py "  ") ∧
  parse_assistant_message (py "  ") = Some [] ∧
  ∀ text partial,
    parse_assistant_message (py "  ") ≠ Some [TextContent text partial].
Proof. split; [by apply (bool_decide_unpack _)|]. split; done. Qed.

(** C8 (amended): for a buffer without ['<'] whose trimmed text is not
    empty, the parser returns the single text block holding the trimmed
    input, partial exactly when that text does not end with a period; when
    the trimmed text is empty it returns no block. *)
Theorem parse_plain_text (s : str) :
  LT ∉ s →
  parse_assistant_message s =
    Some (if truthy (strip s)
          then [TextContent (strip s) (negb (endswith (strip s) [DOT]))]
          else []).
Proof.
  intros Hlt. unfold parse_assistant_message. cbn [parse_loop].
  destruct (Nat.ltb_spec 0 (length s)) as [Hn|Hn].
  - rewrite bool_decide_eq_false_2; last first.
    { intros Hs. apply Hlt. by eapply list_elem_of_lookup_2. }
    rewrite find_char_absent by done.
    unfold slice_from, append_text. rewrite drop_0, strip_idemp.
    by destruct (truthy (strip s)).
  - destruct s; [done|simpl in Hn; lia].
Qed.

Lemma parse_plain_text_witness :
  (LT ∉ py "Done.") ∧
  parse_assistant_message (py "Done.") = Some [TextContent (py "Done.") false].
Proof.
  split; [by apply (bool_decide_unpack _)|].
  rewrite (parse_plain_text (py "Done.")); [reflexivity|].
  by apply (bool_decide_unpack _).
Defined.

(** *** Tagged spans *)

Lemma close_tag_unfold (name : str) :
  close_tag name = LT :: SLASH :: name ++ [GT].
Proof. reflexivity. Qed.

Lemma app_char_inj (c : N) (l1 l2 r1 r2 : str) :
  c ∉ l1 → c ∉ l2 → l1 ++ c :: r1 = l2 ++ c :: r2 → l1 = l2.
Proof.
  revert l2. induction l1 as [|d l1 IH]; intros [|d' l2] H1 H2 E;
    simplify_eq/=; try done.
  - set_solver.
  - set_solver.
  - f_equal. apply IH; set_solver.
Qed.

Lemma find_first_char_take (c : N) (l r : str) (m : nat) :
  c ∉ l → length l < m → find_first [c] (take m (l ++ c :: r)) = Some (length l).
Proof.
  intros Hl Hm.
  replace m with (length l + S (m - S (length l))) by lia.
  rewrite take_app_add. simpl. by apply find_first_char.
Qed.

Lemma find_first_next (c d : N) (sub r : str) :
  starts_with (c :: sub) (d :: r) = false →
  find_first (c :: sub) (d :: r) = S <$> find_first (c :: sub) r.
Proof. intros E. cbn [find_first]. by rewrite E. Qed.

(** A closing tag does not match at an opening tag ... *)
Lemma close_tag_not_at_open (name k r : str) :
  SLASH ∉ k → starts_with (close_tag name) (LT :: k ++ GT :: r) = false.
Proof.
  intros Hk. rewrite close_tag_unfold. cbn [starts_with].
  rewrite N.eqb_refl. cbn [andb].
  destruct k as [|c k]; [done|].
  apply not_elem_of_cons in Hk as [Hc _].
  cbn [app starts_with]. by apply N.eqb_neq in Hc as ->.
Qed.

(** ... nor at the closing tag of another name. *)
Lemma close_tag_not_at_other (name k r : str) :
  GT ∉ name → GT ∉ k → k ≠ name →
  starts_with (close_tag name) (LT :: SLASH :: k ++ GT :: r) = false.
Proof.
  intros Hn Hk Hne. apply not_true_is_false. intros E.
  apply starts_with_true in E as [r' E]. apply Hne.
  rewrite close_tag_unfold in E. simplify_eq/=.
  rewrite <-app_assoc in E. by eapply app_char_inj.
Qed.


Lemma param_text_app (g k v r : str) :
  param_text (g, k, v) ++ r =
    g ++ LT :: (k ++ GT :: (v ++ LT :: SLASH :: (k ++ GT :: r))).
Proof.
  unfold param_text. rewrite close_tag_unfold, <-!app_assoc. simpl.
  by rewrite <-!app_assoc.
Qed.

Lemma length_param_text (g k v : str) :
  length (param_text (g, k, v)) =
    length g + length k + length v + length k + 5.
Proof.
  unfold param_text. rewrite !length_app, length_close_tag. simpl. lia.
Qed.

(** Moving the search for a string that starts with ['<'] past text that
    has none, one character or one stretch at a time. *)
Ltac skip_text :=
  repeat first
    [ rewrite find_first_skip by done
    | rewrite find_first_next by (by apply starts_with_head) ].

Ltac same_offset :=
  match goal with
  | |- context [find_first ?sub ?r] =>
    destruct (find_first sub r); simpl; [f_equal|done]
  end.

(** The search for [</name>] runs over a closed parameter of another name. *)
Lemma find_first_close_tag_param (name : str) (p : str * str * str) (r : str) :
  GT ∉ name → closed_param name p →
  find_first (close_tag name) (param_text p ++ r) =
    (λ j, length (param_text p) + j) <$> find_first (close_tag name) r.
Proof.
  destruct p as [[g k] v]. intros Hn (Hg & (Hk1 & Hk2 & Hk3) & Hne & Hv).
  simpl in Hg, Hk1, Hk2, Hk3, Hne, Hv.
  rewrite param_text_app, length_param_text.
  rewrite (close_tag_unfold name). skip_text.
  rewrite find_first_next
    by (rewrite <-close_tag_unfold; by apply close_tag_not_at_open).
  skip_text.
  rewrite find_first_next; last first.
  { rewrite <-(close_tag_unfold name). by apply close_tag_not_at_other. }
  skip_text. same_offset. lia.
Qed.

Lemma find_first_close_tag_params (name : str) (ps : list (str * str * str))
    (r : str) :
  GT ∉ name → Forall (closed_param name) ps →
  find_first (close_tag name) (params_text ps ++ r) =
    (λ j, length (params_text ps) + j) <$> find_first (close_tag name) r.
Proof.
  intros Hn. induction 1 as [|p ps Hp Hps IH].
  - simpl. by destruct (find_first _ r).
  - unfold params_text in *. cbn [fmap list_fmap concat].
    rewrite <-app_assoc, find_first_close_tag_param by done.
    rewrite IH. same_offset. rewrite length_app. lia.
Qed.


(** *** Searching and slicing at a known offset *)

Lemma find_at (sub s x r : str) (n : nat) :
  s = x ++ r → n = length x →
  find sub s n = (λ k, n + k) <$> find_first sub r.
Proof. intros -> ->. apply find_app. Qed.

Lemma find_in_at (sub s x r : str) (n stop : nat) :
  s = x ++ r → n = length x →
  find_in sub s n stop = (λ k, n + k) <$> find_first sub (take (stop - n) r).
Proof.
  intros -> ->. unfold find_in, slice. rewrite length_app.
  destruct (Nat.leb_spec (length x) (length x + length r)); [|lia].
  by rewrite drop_app_length.
Qed.

Lemma slice_at (s x y r : str) (n m : nat) :
  s = x ++ y ++ r → n = length x → m = n + length y → slice s n m = y.
Proof.
  intros -> -> ->. unfold slice. rewrite drop_app_length.
  replace (length x + length y - length x) with (length y) by lia.
  by rewrite take_app_length.
Qed.

Ltac list_eq := simpl; rewrite <-?app_assoc; simpl; rewrite <-?app_assoc; reflexivity.
Ltac len_eq := rewrite ?length_app; simpl; rewrite ?length_app; simpl; lia.

(** One turn of the inner loop over a closed parameter. *)
Lemma scan_params_closed (fuel : nat) (a g k v r : str) (c : nat)
    (d : list (str * str)) :
  LT ∉ g → GT ∉ k → LT ∉ v → length a + length g < c →
  scan_params (S fuel) (a ++ param_text (g, k, v) ++ r) c (length a) d =
  scan_params fuel (a ++ param_text (g, k, v) ++ r) c
    (length a + length (param_text (g, k, v))) (dict_set k (strip v) d).
Proof.
  intros Hg Hk Hv Hc. rewrite param_text_app, length_param_text.
  set (s := a ++ _). cbn [scan_params].
  destruct (Nat.ltb_spec (length a) c); [|lia].
  rewrite (find_in_at _ s a (g ++ LT :: k ++ GT :: v ++ LT :: SLASH :: k ++ GT :: r))
    by done.
  rewrite find_first_char_take by (done || lia). cbn [fmap option_fmap option_map].
  rewrite (find_at _ s (a ++ g) ((LT :: k) ++ GT :: v ++ LT :: SLASH :: k ++ GT :: r))
    by (subst s; list_eq || len_eq).
  rewrite find_first_char; last first.
  { rewrite not_elem_of_cons. done. }
  cbn [fmap option_fmap option_map length].
  rewrite (slice_at s (a ++ g ++ [LT]) k (GT :: v ++ LT :: SLASH :: k ++ GT :: r))
    by (subst s; list_eq || len_eq).
  rewrite (find_at _ s (a ++ g ++ LT :: k)
             (GT :: v ++ (LT :: SLASH :: k ++ [GT]) ++ r))
    by (subst s; list_eq || len_eq).
  rewrite close_tag_unfold. skip_text. rewrite find_first_here.
  cbn [fmap option_fmap option_map].
  rewrite (slice_at s (a ++ g ++ LT :: k ++ [GT]) v (LT :: SLASH :: k ++ GT :: r))
    by (subst s; list_eq || len_eq).
  f_equal. len_eq.
Qed.


Lemma length_params_text_cons (p : str * str * str) (ps : list (str * str * str)) :
  length (params_text (p :: ps)) = length (param_text p) + length (params_text ps).
Proof. unfold params_text. simpl. by rewrite length_app. Qed.


Lemma strip_id (s : str) : clean_head s → clean_head (reverse s) → strip s = s.
Proof.
  intros H1 H2. unfold strip, rstrip.
  by rewrite (lstrip_id s), (lstrip_id (reverse s)), reverse_involutive.
Qed.



Lemma length_params_text (ps : list (str * str * str)) :
  length ps ≤ length (params_text ps).
Proof.
  induction ps as [|[[g k] v] ps IH]; [done|].
  rewrite length_params_text_cons, length_param_text. simpl. lia.
Qed.




(** ** Stateful methods *)

Lemma bind_unfold {St A B} (m : M St A) (f : A → M St B) (s : St) :
  (m ≫= f) s =
    match m s with
    | (Return a, s') => f a s'
    | (Raise e, s') => (Raise e, s')
    end.
Proof. reflexivity. Qed.

Lemma bind_return_inv {St A B} (m : M St A) (f : A → M St B) (s s' : St) (b : B) :
  (m ≫= f) s = (Return b, s') →
  ∃ a s1, m s = (Return a, s1) ∧ f a s1 = (Return b, s').
Proof.
  rewrite bind_unfold. destruct (m s) as [[a|e] s1]; [|done].
  intros E. by exists a, s1.
Qed.

(** ** The terminal process *)

Lemma emit_if_eol_unset (chunk : str) (p : TerminalProcess) :
  _buffer p = None →
  _emit_if_eol chunk p = (Raise (AttributeError (py "_buffer")), p).
Proof. intros E. unfold _emit_if_eol. rewrite bind_unfold. simpl. by rewrite E. Qed.

(** Nothing ever assigns [_buffer]: with the attribute unset, a chunk is
    appended to [_output_buffer] and the method raises before the timer is
    touched. *)
Lemma process_output_unset `{Unicode} (data : str) (p : TerminalProcess) :
  _buffer p = None →
  _process_output data p =
    (Raise (AttributeError (py "_buffer")),
     set_output_buffer
       (_output_buffer p ++ _handle_vscode_sequences (_strip_ansi data)) p).
Proof.
  intros E. unfold _process_output. rewrite bind_unfold. simpl.
  rewrite bind_unfold, emit_if_eol_unset; done.
Qed.

(** Taken alone, [_update_hot_state] arms the timer the heuristic asks for. *)
Lemma update_hot_state_timer `{Unicode} (data : str) (p : TerminalProcess) :
  _update_hot_state data p =
    (Return tt,
     set_hot_timer
       (Some {| delay := if is_compiling data then 15%N else 2%N;
                fired := false |}) p).
Proof. unfold _update_hot_state, _set_hot_timer. by destruct (is_compiling data). Qed.

Ltac ascii_text := repeat constructor.

Lemma build_complete_not_compiling `{Unicode} :
  is_compiling (py "Build complete") = false.
Proof. unfold is_compiling. rewrite lower_ascii by ascii_text. reflexivity. Qed.

Lemma compiling_chunk_is_compiling `{Unicode} :
  is_compiling (py "Compiling main.c
") = true.
Proof. unfold is_compiling. rewrite lower_ascii by ascii_text. reflexivity. Qed.


(** C6 (code defect): a chunk that announces a compilation reaches a
    session just started; [_process_output] raises [AttributeError] on the
    unset [_buffer] before [_update_hot_state] runs, so the timer stays the
    2-second one armed by [run] instead of being re-armed to 15 seconds. *)
Theorem compiling_chunk_not_rearmed `{Unicode} :
  let data := py "Compiling main.c
" in
  let p := started (py "make") None in
  is_compiling data = true ∧
  (_process_output data p).1 = Raise (AttributeError (py "_buffer")) ∧
  _hot_timer (_process_output data p).2
    = Some {| delay := PROCESS_HOT_TIMEOUT_NORMAL; fired := false |}.
Proof.
  intros data p. split; [apply compiling_chunk_is_compiling|].
  by rewrite process_output_unset.
Qed.

Lemma process_output_timer `{Unicode} (data : str) (p p' : TerminalProcess) :
  _process_output data p = (Return tt, p') → timer_pending p'.
Proof.
  unfold _process_output. intros E.
  apply bind_return_inv in E as (_ & p1 & _ & E).
  apply bind_return_inv in E as (_ & p2 & _ & E).
  rewrite update_hot_state_timer in E. injection E as <-. by eexists.
Qed.

Lemma for_each_process_output_timer `{Unicode} (chunks : list str)
    (p p' : TerminalProcess) :
  for_each chunks _process_output p = (Return tt, p') →
  timer_pending p → timer_pending p'.
Proof.
  revert p. induction chunks as [|data chunks IH]; intros p E Hp.
  - by injection E as <-.
  - cbn [for_each] in E. apply bind_return_inv in E as ([] & p1 & E1 & E).
    apply (IH p1 E). by eapply process_output_timer.
Qed.

(** C2, as stated, fails: a command that prints nothing has just been
    started, so the session is hot and its 2-second timer is armed; when its
    output stream ends the reader clears the hot flag although that timer
    has not fired. *)
Lemma silent_exit_clears_hot :
  let p := started (py "true") None in
  let p' := (@_read_output ascii_case [] p).2 in
  _is_hot p = true ∧
  _hot_timer p = Some {| delay := 2; fired := false |} ∧
  (@_read_output ascii_case [] p).1 = Return tt ∧
  _is_hot p' = false ∧
  _hot_timer p' = Some {| delay := 2; fired := false |}.
Proof. repeat split. Qed.

(** C2 (amended): when the output stream of the subprocess ends and the
    reader has processed every chunk, the reader itself clears the hot flag
    at once, after the completed and continue events; it does not wait for
    the timer armed last, which it leaves pending. *)
Theorem read_output_clears_hot `{Unicode} (chunks : list str)
    (p p' : TerminalProcess) :
  is_Some (_process p) →
  _read_output chunks p = (Return tt, p') →
  _is_hot p' = false ∧
  (timer_pending p → timer_pending p') ∧
  ∃ p1, for_each chunks _process_output p = (Return tt, p1) ∧
        emitted p' = emitted p1 ++ [{| type := COMPLETED; data := None |};
                                    {| type := CONTINUE; data := None |}].
Proof.
  intros [po Hpo] E. unfold _read_output in E.
  rewrite bind_unfold in E. simpl in E. rewrite Hpo in E.
  apply bind_return_inv in E as ([] & p1 & E1 & E).
  injection E as <-. split; [done|]. split.
  - intros Hp. destruct (for_each_process_output_timer _ _ _ E1 Hp) as [d Hd].
    exists d. done.
  - exists p1. split; [done|]. simpl. by rewrite <-app_assoc.
Qed.

Lemma read_output_clears_hot_witness :
  let p := started (py "true") None in
  _is_hot (@_read_output ascii_case [] p).2 = false.
Proof.
  intros p.
  apply (@read_output_clears_hot ascii_case [] p (@_read_output ascii_case [] p).2).
  - by eexists.
  - reflexivity.
Defined.

(** ** The terminal manager *)

Lemma terminate_at_hot (l l' : positive) (objs : gmap positive TerminalProcess) :
  is_hot <$> terminate_at l objs !! l' = is_hot <$> objs !! l'.
Proof.
  unfold terminate_at. destruct (objs !! l) as [p|] eqn:E; [|done].
  destruct (_process p); [|done].
  destruct (decide (l = l')) as [<-|Hne].
  - by rewrite lookup_insert_eq, E.
  - by rewrite lookup_insert_ne.
Qed.

Lemma remove_terminal_hot (tid : nat) (m : TerminalManager) (l : positive) :
  is_hot <$> objects (remove_terminal tid m) !! l = is_hot <$> objects m !! l.
Proof.
  unfold remove_terminal. destruct (_processes m !! tid); simpl; [|done].
  apply terminate_at_hot.
Qed.

Lemma process_gone_cold_ext (m m' : TerminalManager) (info : TerminalInfo) :
  (∀ l, is_hot <$> objects m' !! l = is_hot <$> objects m !! l) →
  process_gone_cold m' info = process_gone_cold m info.
Proof.
  intros Hhot. unfold process_gone_cold. destruct (process info) as [l|]; [|done].
  specialize (Hhot l).
  destruct (objects m' !! l), (objects m !! l); simplify_eq/=; congruence.
Qed.

Lemma remove_terminal_terminals (tid : nat) (m : TerminalManager) :
  _terminals (remove_terminal tid m) = delete tid (_terminals m).
Proof. unfold remove_terminal. by destruct (_processes m !! tid). Qed.

Lemma remove_terminal_processes (tid : nat) (m : TerminalManager) :
  _processes (remove_terminal tid m) = delete tid (_processes m).
Proof.
  unfold remove_terminal. destruct (_processes m !! tid) eqn:E; simpl; [done|].
  symmetry. by apply delete_id.
Qed.

Lemma remove_terminal_objects (tid : nat) (m : TerminalManager) :
  objects (remove_terminal tid m) =
    from_option (λ l, terminate_at l (objects m)) (objects m)
      (_processes m !! tid).
Proof. unfold remove_terminal. by destruct (_processes m !! tid). Qed.

(** What one lookup does to the manager. *)
Lemma get_terminal_state (tid : nat) (m : TerminalManager) :
  (get_terminal tid m).2 =
    if culled m [tid] tid then remove_terminal tid m else m.
Proof.
  unfold get_terminal, culled.
  rewrite bool_decide_eq_true_2 by (by apply list_elem_of_singleton).
  destruct (_terminals m !! tid) as [info|]; simpl; [|done].
  by destruct (process_gone_cold m info).
Qed.

Lemma get_terminal_returns (tid : nat) (m : TerminalManager) :
  ∃ r, (get_terminal tid m).1 = Return r.
Proof.
  unfold get_terminal. destruct (_terminals m !! tid) as [info|]; [|by eexists].
  destruct (process_gone_cold m info); by eexists.
Qed.

Lemma culled_cons (m : TerminalManager) (t : nat) (ids : list nat) (tid : nat) :
  culled m (t :: ids) tid = culled m [t] tid || culled m ids tid.
Proof.
  unfold culled. destruct (from_option _ _ _); rewrite ?andb_false_r, ?andb_true_r;
    [|done].
  rewrite <-bool_decide_or. apply bool_decide_ext.
  by rewrite elem_of_cons, list_elem_of_singleton.
Qed.

Lemma culled_singleton_ne (m : TerminalManager) (t tid : nat) :
  tid ≠ t → culled m [t] tid = false.
Proof.
  intros Hne. unfold culled. rewrite bool_decide_eq_false_2; [done|].
  by rewrite list_elem_of_singleton.
Qed.

(** The loop of [get_all_terminals] returns, and removes from both tables
    the terminals of [ids] that were cold when it started and nothing else. *)
Lemma collect_terminals_spec (ids : list nat) :
  ∀ (active : list TerminalInfo) (m : TerminalManager),
  ∃ infos m',
    collect_terminals ids active m = (Return infos, m') ∧
    (∀ l, is_hot <$> objects m' !! l = is_hot <$> objects m !! l) ∧
    (∀ tid, _terminals m' !! tid =
              if culled m ids tid then None else _terminals m !! tid) ∧
    (∀ tid, _processes m' !! tid =
              if culled m ids tid then None else _processes m !! tid).
Proof.
  induction ids as [|t ids IH]; intros active m.
  - exists active, m. repeat split; intros; unfold culled;
      by rewrite bool_decide_eq_false_2 by set_solver.
  - cbn [collect_terminals]. rewrite bind_unfold.
    destruct (get_terminal_returns t m) as [r Hr].
    pose proof (get_terminal_state t m) as Hm.
    destruct (get_terminal t m) as [r' m1]. simpl in Hr, Hm. subst r' m1.
    set (m1 := if culled m [t] t then remove_terminal t m else m).
    assert (∀ l, is_hot <$> objects m1 !! l = is_hot <$> objects m !! l) as Hhot1.
    { intros l. unfold m1. destruct (culled m [t] t); [|done].
      apply remove_terminal_hot. }
    assert (∀ tid, _terminals m1 !! tid =
              if culled m [t] tid then None else _terminals m !! tid) as Ht1.
    { intros tid. unfold m1. destruct (decide (tid = t)) as [->|Hne].
      - destruct (culled m [t] t); [|done].
        by rewrite remove_terminal_terminals, lookup_delete_eq.
      - rewrite (culled_singleton_ne m t tid) by done.
        destruct (culled m [t] t); [|done].
        by rewrite remove_terminal_terminals, lookup_delete_ne by done. }
    assert (∀ tid, _processes m1 !! tid =
              if culled m [t] tid then None else _processes m !! tid) as Hp1.
    { intros tid. unfold m1. destruct (decide (tid = t)) as [->|Hne].
      - destruct (culled m [t] t); [|done].
        by rewrite remove_terminal_processes, lookup_delete_eq.
      - rewrite (culled_singleton_ne m t tid) by done.
        destruct (culled m [t] t); [|done].
        by rewrite remove_terminal_processes, lookup_delete_ne by done. }
    assert (∀ tid, culled m [t] tid = false →
              culled m1 ids tid = culled m ids tid) as Hc1.
    { intros tid Hf. unfold culled. rewrite Ht1, Hf.
      destruct (_terminals m !! tid) as [info|]; simpl; [|done].
      by rewrite (process_gone_cold_ext m m1). }
    destruct (IH (match r with Some info => active ++ [info] | None => active end) m1)
      as (infos & m' & E & Hhot & Ht & Hp).
    exists infos, m'. split; [by destruct r|]. split; [|split].
    + intros l. by rewrite Hhot.
    + intros tid. rewrite Ht, Ht1, (culled_cons m t ids tid).
      destruct (culled m [t] tid) eqn:Hf; simpl.
      * by destruct (culled m1 ids tid).
      * by rewrite Hc1.
    + intros tid. rewrite Hp, Hp1, (culled_cons m t ids tid).
      destruct (culled m [t] tid) eqn:Hf; simpl.
      * by destruct (culled m1 ids tid).
      * by rewrite Hc1.
Qed.




(** ** The file system *)

Ltac by_compute := apply (bool_decide_unpack _); vm_compute; exact I.

Lemma bind_get {St B} (f : St → M St B) (s : St) : (get ≫= f) s = f s s.
Proof. reflexivity. Qed.

Lemma bind_on_self {Self B} (f : Self → Self) (k : unit → M (world Self) B)
    (w : world Self) :
  (on_self f ≫= k) w = k tt (World (f (self w)) (disk w)).
Proof. reflexivity. Qed.

Lemma bind_ret {St A B} (a : A) (k : A → M St B) (s : St) :
  (mret a ≫= k) s = k a s.
Proof. reflexivity. Qed.

Lemma bind_raise {St A B} (e : exn) (k : A → M St B) (s : St) :
  (raise e ≫= k) s = (Raise e, s).
Proof. reflexivity. Qed.

Lemma exists_unfold {Self : Type} (p : list (list N)) (w : world Self) :
  exists_ p w = (Return (bool_decide (is_Some (disk w !! p))), w).
Proof. reflexivity. Qed.

Lemma mkdir_unfold {Self : Type} (p : list (list N)) (w : world Self) :
  mkdir p w =
    match disk w !! p with
    | Some _ => (Raise FileExistsError, w)
    | None =>
      match disk w !! parent p with
      | Some Dir => (Return tt, World (self w) (<[p := Dir]> (disk w)))
      | Some (File _) => (Raise NotADirectoryError, w)
      | None => (Raise FileNotFoundError, w)
      end
    end.
Proof.
  unfold mkdir. rewrite bind_get. destruct (disk w !! p); [done|].
  by destruct (disk w !! parent p) as [[]|].
Qed.

Lemma write_file_unfold {Self : Type} (p : list (list N)) (content : list N)
    (w : world Self) :
  write_file p content w =
    match disk w !! p with
    | Some Dir => (Raise IsADirectoryError, w)
    | Some (File _) =>
      (Return tt, World (self w) (<[p := File content]> (disk w)))
    | None =>
      match disk w !! parent p with
      | Some Dir => (Return tt, World (self w) (<[p := File content]> (disk w)))
      | Some (File _) => (Raise NotADirectoryError, w)
      | None => (Raise FileNotFoundError, w)
      end
    end.
Proof.
  unfold write_file. rewrite bind_get. destruct (disk w !! p) as [[]|]; [done..|].
  by destruct (disk w !! parent p) as [[]|].
Qed.

Lemma read_local_file_unfold {Self : Type} (p : list (list N)) (w : world Self) :
  read_local_file p w =
    match disk w !! p with
    | None => (Raise FileNotFoundError, w)
    | Some Dir => (Raise RuntimeError, w)
    | Some (File content) => (Return content, w)
    end.
Proof.
  unfold read_local_file. rewrite bind_get. by destruct (disk w !! p) as [[]|].
Qed.

Lemma unlink_unfold {Self : Type} (p : list (list N)) (w : world Self) :
  unlink p w =
    match disk w !! p with
    | None => (Raise FileNotFoundError, w)
    | Some Dir => (Raise IsADirectoryError, w)
    | Some (File _) => (Return tt, World (self w) (delete p (disk w)))
    end.
Proof. unfold unlink. rewrite bind_get. by destruct (disk w !! p) as [[]|]. Qed.

Lemma length_parent (p : list (list N)) : length (parent p) = length p - 1.
Proof. unfold parent. rewrite length_take. lia. Qed.


Lemma parents_unfold (p : list (list N)) :
  p ≠ [] → parents p = parent p :: parents (parent p).
Proof.
  intros Hp. unfold parents. rewrite length_parent.
  destruct (length p) as [|n] eqn:En; [by destruct p|].
  rewrite seq_S, reverse_app. simpl. rewrite Nat.sub_0_r. unfold parent.
  rewrite En. simpl. rewrite Nat.sub_0_r. f_equal.
  apply list_fmap_ext. intros i k Hk. 
  apply list_elem_of_lookup_2, elem_of_reverse, elem_of_seq in Hk.
  rewrite take_take. f_equal. lia.
Qed.







(** ** The diff view provider *)

Ltac dvp_simpl :=
  cbn [self disk cwd edit_type is_editing original_content created_dirs
       document_was_open rel_path new_content active_diff_editor
       faded_overlay_controller active_line_controller streamed_lines
       pre_diagnostics set_edit_type set_is_editing set_original_content
       set_created_dirs set_rel_path set_new_content set_active_diff_editor
       set_controllers set_streamed_lines negb] in *.

Lemma on_self_unfold {Self : Type} (f : Self → Self) (w : world Self) :
  on_self f w = (Return tt, World (f (self w)) (disk w)).
Proof. reflexivity. Qed.

Ltac step :=
  first [ rewrite bind_on_self | rewrite bind_get | rewrite bind_ret
        | rewrite on_self_unfold | rewrite bind_unfold ]; dvp_simpl.

Lemma is_modify_set_rel_path (v : option (list (list N))) (d : DiffViewProvider) :
  is_modify (set_rel_path v d) = is_modify d.
Proof. reflexivity. Qed.







Lemma any_iterdir_unfold {Self : Type} (p : list (list N)) (w : world Self) :
  any_iterdir p w =
    match disk w !! p with
    | None => (Raise FileNotFoundError, w)
    | Some (File _) => (Raise NotADirectoryError, w)
    | Some Dir => (Return (negb (is_empty_dir (disk w) p)), w)
    end.
Proof. unfold any_iterdir. rewrite bind_get. by destruct (disk w !! p) as [[]|]. Qed.




(** The loop body of [revert_changes] leaves an occupied directory alone. *)
Lemma remove_if_empty_occupied (w : world DiffViewProvider) (d : list (list N)) :
  disk w !! d = Some Dir → is_empty_dir (disk w) d = false →
  remove_if_empty d w = (Return tt, w).
Proof.
  intros Hd Hocc. unfold remove_if_empty.
  rewrite bind_unfold, exists_unfold, bool_decide_eq_true_2 by (by eexists).
  by rewrite bind_unfold, any_iterdir_unfold, Hd, Hocc.
Qed.











Lemma create_missing_keeps (ps created : list (list (list N))) :
  ∀ (w w' : world DiffViewProvider) (r : outcome (list (list (list N)))),
  create_missing ps created w = (r, w') →
  self w' = self w ∧
  ∀ p x, disk w !! p = Some x → disk w' !! p = Some x.
Proof.
  revert created. induction ps as [|q ps IH]; intros created w w' r E.
  - by injection E as <- <-.
  - cbn [create_missing] in E. rewrite bind_unfold, exists_unfold in E.
    case_bool_decide as Hq.
    + by apply IH in E.
    + rewrite bind_unfold, mkdir_unfold in E.
      destruct (disk w !! q) eqn:Eq; [by injection E as <- <-|].
      destruct (disk w !! parent q) as [[]|];
        [by injection E as <- <-| |by injection E as <- <-].
      apply IH in E as [E1 E2]. split; [done|].
      intros p x Hp. apply E2. cbn [disk].
      rewrite lookup_insert_ne; [done|]. intros <-. congruence.
Qed.

(** A successful [open] sets the session up and leaves a file at the target. *)
Lemma open_session (w w1 : world DiffViewProvider) (rel : list (list N)) :
  open rel w = (Return tt, w1) →
  session_open rel (self w1) ∧ cwd (self w1) = cwd (self w) ∧
  ∃ c, disk w1 !! (cwd (self w) ++ rel) = Some (File c).
Proof.
  unfold open. rewrite bind_on_self, bind_get. dvp_simpl.
  rewrite bind_on_self. dvp_simpl. rewrite !is_modify_set_rel_path.
  intros E. apply bind_return_inv in E as ([] & wa & Ea & E).
  apply bind_return_inv in E as (created & wb & Eb & E).
  rewrite bind_on_self in E.
  apply bind_return_inv in E as ([] & wc & Ec & E).
  unfold _open_diff_view in E. rewrite bind_unfold, bind_get in E.
  apply create_missing_keeps in Eb as [Hself Hkeep].
  assert (self wa = (if is_modify (self w)
                     then set_original_content (original_content (self wa))
                     else set_original_content (Some []))
                      (set_is_editing true (set_rel_path (Some rel) (self w)))
          ∧ (is_modify (self w) = true →
             ∃ c, disk wa !! (cwd (self w) ++ rel) = Some (File c))) as [Hwa Hfile].
  { destruct (is_modify (self w)).
    - rewrite bind_unfold, read_local_file_unfold in Ea. cbn [disk] in Ea.
      destruct (disk w !! (cwd (self w) ++ rel)) as [[c|]|] eqn:Ef; [|done..].
      rewrite on_self_unfold in Ea. injection Ea as <-. split; [done|].
      intros _. by exists c.
    - rewrite on_self_unfold in Ea. injection Ea as <-. by split. }
  assert (self wc = set_created_dirs created (self wa)
          ∧ ∃ c, disk wc !! (cwd (self w) ++ rel) = Some (File c)) as [Hwc Hc].
  { destruct (is_modify (self w)); cbn [negb] in Ec.
    - injection Ec as <-. split; [by rewrite <-Hself|].
      destruct (Hfile eq_refl) as [c Hc]. exists c. by apply Hkeep.
    - rewrite write_file_unfold in Ec. cbn [disk self] in Ec.
      destruct (disk wb !! (cwd (self w) ++ rel)) as [[c|]|]; [|done|].
      + injection Ec as <-. cbn [self disk]. split; [by rewrite Hself|].
        exists []. apply lookup_insert_eq.
      + destruct (disk wb !! parent (cwd (self w) ++ rel)) as [[]|]; [done| |done].
        injection Ec as <-. cbn [self disk]. split; [by rewrite Hself|].
        exists []. apply lookup_insert_eq. }
  assert (rel_path (self wc) = Some rel ∧ cwd (self wc) = cwd (self w)) as [Hrel Hcwd].
  { rewrite Hwc, Hwa. by destruct (is_modify (self w)). }
  rewrite Hrel in E. unfold mret, M_ret in E. cbv beta iota in E.
  rewrite bind_on_self, bind_on_self, on_self_unfold in E.
  injection E as <-. dvp_simpl. split; [|by split].
  unfold session_open. dvp_simpl. repeat split; try done; by eexists.
Qed.





(** ** The tool manager *)

Section tool_manager_facts.
Context (md5_hexdigest : list N → list N).

Lemma create_new_version_unfold (now name code description : list N)
    (r : registry) :
  _create_new_version md5_hexdigest now name code description r =
    (Return tt,
     {| EXTENDED_TOOLS := EXTENDED_TOOLS r; tools := tools r;
        tool_versions :=
          <[name := get_tool_versions name r
                    ++ [appended_version md5_hexdigest now name code
                          description r]]> (tool_versions r) |}).
Proof. reflexivity. Qed.

Lemma validate_tool_code_state (code : list N) (r r' : registry)
    (o : outcome unit) :
  _validate_tool_code code r = (o, r') → r' = r.
Proof.
  unfold _validate_tool_code.
  destruct (_ || _); [by intros [= _ <-]|].
  destruct (contains _ code); by intros [= _ <-].
Qed.

(** What a successful [add_tool] does. *)
Lemma add_tool_return (now name description code : list N) (r r' : registry) :
  add_tool md5_hexdigest now name description code r = (Return tt, r') →
  tools r !! name = None ∧
  EXTENDED_TOOLS r' = <[name := ExtendedTool name description true]> (EXTENDED_TOOLS r) ∧
  tools r' = <[name := ExtendedTool name description true]> (tools r) ∧
  tool_versions r' =
    <[name := get_tool_versions name r
              ++ [appended_version md5_hexdigest now name code description r]]>
      (tool_versions r).
Proof.
  unfold add_tool. rewrite bind_get. case_bool_decide as Hin; [done|].
  intros E. apply bind_return_inv in E as ([] & r1 & Ev & E).
  apply validate_tool_code_state in Ev as ->.
  rewrite bind_unfold in E. cbn [modify] in E.
  rewrite create_new_version_unfold in E. injection E as <-.
  split; [|done]. by apply eq_None_not_Some.
Qed.

(** What a successful [update_tool] does. *)
Lemma update_tool_return (now name code description : list N) (r r' : registry) :
  update_tool md5_hexdigest now name code description r = (Return tt, r') →
  is_Some (EXTENDED_TOOLS r !! name) ∧
  EXTENDED_TOOLS r' = alter (set_description description) name (EXTENDED_TOOLS r) ∧
  tools r' = alter (set_description description) name (tools r) ∧
  tool_versions r' =
    <[name := get_tool_versions name r
              ++ [appended_version md5_hexdigest now name code description r]]>
      (tool_versions r).
Proof.
  unfold update_tool. rewrite bind_get. case_bool_decide as Hin; [|done].
  intros E. apply bind_return_inv in E as ([] & r1 & Ev & E).
  apply validate_tool_code_state in Ev as ->.
  destruct (tools r !! name); [|done].
  rewrite bind_unfold in E. cbn [modify] in E.
  rewrite create_new_version_unfold in E. by injection E as <-.
Qed.

(** A call that raises has written nothing. *)
Lemma perform_raise (c : call) (r r' : registry) (e : exn) :
  perform md5_hexdigest c r = (Raise e, r') → r' = r.
Proof.
  destruct c as [now name description code|now name code description|name];
    cbn [perform].
  - unfold add_tool. rewrite bind_get. case_bool_decide; [by intros [= _ <-]|].
    rewrite bind_unfold.
    destruct (_validate_tool_code code r) as [[[]|e'] r1] eqn:Ev;
      apply validate_tool_code_state in Ev as ->; [|by intros [= _ <-]].
    rewrite bind_unfold. cbn [modify]. by rewrite create_new_version_unfold.
  - unfold update_tool. rewrite bind_get.
    case_bool_decide; [|by intros [= _ <-]].
    rewrite bind_unfold.
    destruct (_validate_tool_code code r) as [[[]|e'] r1] eqn:Ev;
      apply validate_tool_code_state in Ev as ->; [|by intros [= _ <-]].
    destruct (tools r !! name); [|by intros [= _ <-]].
    rewrite bind_unfold. cbn [modify]. by rewrite create_new_version_unfold.
  - unfold remove_tool. rewrite bind_get.
    case_bool_decide; [|by intros [= _ <-]].
    destruct (tools r !! name); [done|by intros [= _ <-]].
Qed.

(** Every registry a program can reach holds the seeded tools, none of
    them extended. *)
Lemma reachable_basic (r : registry) (name : list N) :
  reachable md5_hexdigest r → name ∈ basic_tool_names →
  is_Some (tools r !! name) ∧ EXTENDED_TOOLS r !! name = None.
Proof.
  intros Hr Hname. induction Hr as [|r c Hr [IHt IHe]].
  - split; [|done]. unfold ToolManager_init. cbn [tools].
    rewrite (left_id_L ∅ (∪)).
    destruct (list_to_map seeded_tools !! name) eqn:E; [by eexists|].
    by apply not_elem_of_list_to_map in E.
  - destruct (perform md5_hexdigest c r) as [[[]|e] r'] eqn:E; cbn [snd];
      [|by apply perform_raise in E as ->].
    destruct c as [now name' description code|now name' code description|name'];
      cbn [perform] in E.
    + apply add_tool_return in E as (Hfree & -> & -> & _).
      assert (name' ≠ name) by (intros ->; destruct IHt; congruence).
      by rewrite !lookup_insert_ne.
    + apply update_tool_return in E as (Hext & -> & -> & _).
      assert (name' ≠ name) by (intros ->; destruct Hext; congruence).
      by rewrite !lookup_alter_ne.
    + unfold remove_tool in E. rewrite bind_get in E.
      case_bool_decide as Hext; [|done].
      destruct (tools r !! name'); [|done]. injection E as <-. cbn.
      assert (name' ≠ name) by (intros ->; destruct Hext; congruence).
      by rewrite !lookup_delete_ne.
Qed.

(** C5 (amended): on a seeded basic-tool name each of the three methods
    raises and leaves the registry as it was: [update_tool] and
    [remove_tool] with the "not an extended tool" error, [add_tool] with
    the "already exists" error of its duplicate-name guard. *)
Theorem basic_tools_immutable (r : registry)
    (name now description code : list N) :
  reachable md5_hexdigest r → name ∈ basic_tool_names →
  add_tool md5_hexdigest now name description code r
    = (Raise (already_exists name), r) ∧
  update_tool md5_hexdigest now name code description r
    = (Raise (not_an_extended_tool name), r) ∧
  remove_tool name r = (Raise (not_an_extended_tool name), r).
Proof.
  intros Hr Hname. destruct (reachable_basic r name Hr Hname) as [Ht He].
  split; [|split].
  - unfold add_tool. rewrite bind_get. by rewrite bool_decide_eq_true_2.
  - unfold update_tool. rewrite bind_get, He.
    by rewrite bool_decide_eq_false_2 by (by intros [? ?]).
  - unfold remove_tool. rewrite bind_get, He.
    by rewrite bool_decide_eq_false_2 by (by intros [? ?]).
Qed.

(** C9: a successful [add_tool] or [update_tool] appends one entry to the
    version log of its name, numbered one more than the entries the log
    held and carrying the digest of the submitted code; the log of every
    other name is left as it was. *)
Theorem version_appended (r : registry) (now name description code : list N) :
  let added := add_tool md5_hexdigest now name description code r in
  let updated := update_tool md5_hexdigest now name code description r in
  let entry :=
    {| version := str_of_nat (length (get_tool_versions name r) + 1);
       timestamp := now;
       checksum := md5_hexdigest code;
       version_description := description |} in
  (added.1 = Return tt →
   get_tool_versions name added.2 = get_tool_versions name r ++ [entry] ∧
   ∀ other, other ≠ name →
     get_tool_versions other added.2 = get_tool_versions other r) ∧
  (updated.1 = Return tt →
   get_tool_versions name updated.2 = get_tool_versions name r ++ [entry] ∧
   ∀ other, other ≠ name →
     get_tool_versions other updated.2 = get_tool_versions other r).
Proof.
  intros added updated entry. split.
  - intros E. destruct added as [o r'] eqn:Ea. cbn [fst snd] in *. subst o.
    apply add_tool_return in Ea as (_ & _ & _ & Hv).
    unfold get_tool_versions at 1 3. rewrite Hv. split.
    + by rewrite lookup_insert_eq.
    + intros other Hne. by rewrite lookup_insert_ne.
  - intros E. destruct updated as [o r'] eqn:Eu. cbn [fst snd] in *. subst o.
    apply update_tool_return in Eu as (_ & _ & _ & Hv).
    unfold get_tool_versions at 1 3. rewrite Hv. split.
    + by rewrite lookup_insert_eq.
    + intros other Hne. by rewrite lookup_insert_ne.
Qed.
End tool_manager_facts.

(** C5, as stated, fails for [add_tool]: on the seeded name "read_file" it
    raises the "already exists" error, not the "not an extended tool" one. *)
Lemma add_read_file_already_exists :
  (py "read_file") ∈ basic_tool_names ∧
  (add_tool no_digest (py "2025-01-01T00:00:00") (py "read_file")
     (py "Read a file") (py "lambda path: path") (ToolManager_init ∅)).1
  = Raise (ValueError (py "Tool 'read_file' already exists")) ∧
  ValueError (py "Tool 'read_file' already exists")
  ≠ ValueError (py "Tool 'read_file' is not an extended tool").
Proof.
  split; [by_compute|]. split; [by vm_compute|]. intros [=].
Qed.

Lemma basic_tools_immutable_witness :
  update_tool no_digest (py "2025-01-01T00:00:00") (py "read_file")
    (py "lambda path: path") (py "Read a file") (ToolManager_init ∅)
  = (Raise (not_an_extended_tool (py "read_file")), ToolManager_init ∅).
Proof.
  apply (basic_tools_immutable no_digest (ToolManager_init ∅) (py "read_file")
           (py "2025-01-01T00:00:00") (py "Read a file") (py "lambda path: path")).
  - apply reachable_init.
  - by_compute.
Defined.

Lemma version_appended_witness :
  let r := ToolManager_init ∅ in
  let added := add_tool no_digest (py "2025-01-01T00:00:00") (py "test_tool")
                 (py "Test tool") (py "lambda x: x") r in
  version <$> get_tool_versions (py "test_tool") added.2 = [py "1"].
Proof.
  intros r added.
  destruct (version_appended no_digest r (py "2025-01-01T00:00:00")
              (py "test_tool") (py "Test tool") (py "lambda x: x"))
    as (Hadd & _).
  destruct Hadd as [Hlog _]; [by vm_compute|].
  unfold added. rewrite Hlog. reflexivity.
Defined.

(** ** Reachable states of the terminal classes *)

Lemma for_each_process_output_unset `{Unicode} (chunks : list (list N))
    (p : TerminalProcess) :
  _buffer p = None →
  _buffer (for_each chunks _process_output p).2 = None ∧
  _hot_timer (for_each chunks _process_output p).2 = _hot_timer p ∧
  (chunks ≠ [] →
   (for_each chunks _process_output p).1 = Raise (AttributeError (py "_buffer"))).
Proof.
  intros Hp. destruct chunks as [|data chunks]; [done|].
  cbn [for_each]. rewrite bind_unfold, process_output_unset by done.
  by repeat split.
Qed.

(** No method assigns [_buffer]: it is unset in every state a process
    object can reach. *)
Lemma buffer_never_set `{Unicode} (p : TerminalProcess) :
  process_reachable p → _buffer p = None.
Proof.
  unfold process_reachable. revert p.
  apply rtc_ind_r; [done|]. intros q p Hq Hstep IH.
  - destruct Hstep as [command cwd q|data q|chunks q|q].
    + done.
    + by rewrite process_output_unset.
    + unfold _read_output. rewrite bind_get. destruct (_process q); [|done].
      rewrite bind_unfold.
      pose proof (for_each_process_output_unset chunks q IH) as (Hb & _ & _).
      destruct (for_each chunks _process_output q) as [[[]|e] q']; done.
    + unfold timer_fires. by destruct (_hot_timer q) as [[d []]|].
Qed.

(** So in every reachable state a chunk makes [_process_output] raise and
    leaves the timer as it was. *)
Lemma process_output_always_raises `{Unicode} (data : list N) (p : TerminalProcess) :
  process_reachable p →
  (_process_output data p).1 = Raise (AttributeError (py "_buffer")) ∧
  _hot_timer (_process_output data p).2 = _hot_timer p.
Proof. intros Hp. by rewrite process_output_unset by by apply buffer_never_set. Qed.

Lemma get_terminal_ids (tid : nat) (m : TerminalManager) :
  ids_apart m → ids_apart (get_terminal tid m).2.
Proof.
  intros (Ht & Hp & Hd). rewrite get_terminal_state.
  destruct (culled m [tid] tid); [|done].
  unfold ids_apart.
  rewrite remove_terminal_terminals, remove_terminal_processes.
  replace (_next_id (remove_terminal tid m)) with (_next_id m)
    by (unfold remove_terminal; by destruct (_processes m !! tid)).
  split; [|split]; intros i; rewrite ?lookup_delete_is_Some.
  - intros [_ Hi]. by apply Ht.
  - intros [_ Hi]. by apply Hp.
  - intros [Hne Hi]. rewrite lookup_delete_ne by done. by apply Hd.
Qed.

Lemma remove_terminal_ids (tid : nat) (m : TerminalManager) :
  ids_apart m → ids_apart (remove_terminal tid m).
Proof.
  intros (Ht & Hp & Hd). unfold ids_apart.
  rewrite remove_terminal_terminals, remove_terminal_processes.
  replace (_next_id (remove_terminal tid m)) with (_next_id m)
    by (unfold remove_terminal; by destruct (_processes m !! tid)).
  split; [|split]; intros i; rewrite ?lookup_delete_is_Some.
  - intros [_ Hi]. by apply Ht.
  - intros [_ Hi]. by apply Hp.
  - intros [Hne Hi]. rewrite lookup_delete_ne by done. by apply Hd.
Qed.

Lemma collect_terminals_ids (ids : list nat) (active : list TerminalInfo)
    (m : TerminalManager) :
  ids_apart m → ids_apart (collect_terminals ids active m).2.
Proof.
  revert active m. induction ids as [|t ids IH]; intros active m Hm; [done|].
  cbn [collect_terminals]. rewrite bind_unfold.
  pose proof (get_terminal_ids t m Hm) as Hm1.
  destruct (get_terminal_returns t m) as [r Hr].
  destruct (get_terminal t m) as [r' m1]. cbn [fst snd] in *. subst r'.
  destruct r; by apply IH.
Qed.

Lemma run_command_unfold (command : list N) (cwd : option (list N))
    (m : TerminalManager) :
  run_command command cwd m =
    (Return (fresh_ref (objects m)),
     {| objects := <[fresh_ref (objects m) := started command cwd]> (objects m);
        _processes := <[_next_id m := fresh_ref (objects m)]> (_processes m);
        _terminals := _terminals m;
        _next_id := _next_id m + 1 |}).
Proof. reflexivity. Qed.

(** Every manager a program can reach keeps the two id tables apart. *)
Lemma reachable_ids_apart (m : TerminalManager) :
  manager_reachable m → ids_apart m.
Proof.
  unfold manager_reachable. revert m.
  apply rtc_ind_r; [|intros q m Hq Hstep IH].
  - unfold ids_apart. cbn.
    repeat split; intros tid; rewrite lookup_empty; by intros [? ?].
  - destruct Hstep as [cwd q|command cwd q|tid q|tid us q|tid q|q|l f q].
    + destruct IH as (Ht & Hp & Hd). unfold ids_apart. cbn.
      split; [|split]; intros i.
      * rewrite lookup_insert_is_Some. intros [<-|[_ Hi]]; [lia|].
        specialize (Ht i Hi). lia.
      * intros Hi. specialize (Hp i Hi). lia.
      * rewrite lookup_insert_is_Some. intros [<-|[_ Hi]]; [|by apply Hd].
        destruct (_processes q !! _next_id q) eqn:E; [|done].
        specialize (Hp (_next_id q)). rewrite E in Hp.
        specialize (Hp (mk_is_Some _ _ eq_refl)). lia.
    + destruct IH as (Ht & Hp & Hd). rewrite run_command_unfold.
      unfold ids_apart. cbn.
      split; [|split]; intros i.
      * intros Hi. specialize (Ht i Hi). lia.
      * rewrite lookup_insert_is_Some. intros [<-|[_ Hi]]; [lia|].
        specialize (Hp i Hi). lia.
      * intros Hi. pose proof (Ht i Hi).
        rewrite lookup_insert_ne by lia. by apply Hd.
    + by apply get_terminal_ids.
    + unfold update_terminal. rewrite bind_unfold.
      pose proof (get_terminal_ids tid q IH) as Hq1.
      pose proof (get_terminal_state tid q) as Hstate.
      unfold get_terminal in *.
      destruct (_terminals q !! tid) as [info|] eqn:Einfo; [|done].
      destruct (process_gone_cold q info); [done|]. cbn in *.
      destruct IH as (Ht & Hp & Hd). unfold ids_apart. cbn.
      split; [|split]; intros i.
      * rewrite lookup_insert_is_Some. intros [<-|[_ Hi]]; [|by apply Ht].
        apply Ht. by eexists.
      * apply Hp.
      * rewrite lookup_insert_is_Some. intros [<-|[_ Hi]]; [|by apply Hd].
        apply Hd. by eexists.
    + by apply remove_terminal_ids.
    + unfold get_all_terminals. rewrite bind_get. by apply collect_terminals_ids.
    + done.
Qed.

(** In a reachable manager the culling lookup therefore terminates no
    subprocess at all: the object store is left as it was. *)
Lemma reachable_lookup_terminates_nothing (m : TerminalManager) (tid : nat) :
  manager_reachable m → objects (get_terminal tid m).2 = objects m.
Proof.
  intros Hm. apply reachable_ids_apart in Hm as (_ & _ & Hd).
  unfold get_terminal. destruct (_terminals m !! tid) as [info|] eqn:E; [|done].
  destruct (process_gone_cold m info); [|done]. cbn [snd].
  rewrite remove_terminal_objects, Hd; [done|by eexists].
Qed.

(** * Further properties *)

(** ** The message parser: complete tool uses inside text *)

Ltac list_eq' :=
  rewrite <-?app_assoc; cbn [app]; rewrite <-?app_assoc; cbn [app]; reflexivity.

Lemma strip_closed_span (name : list N) (ps : list (list N * list N * list N))
    (gap : list N) :
  strip (closed_span name ps gap) = closed_span name ps gap.
Proof.
  apply strip_id; [done|].
  unfold closed_span. rewrite close_tag_unfold.
  rewrite !app_assoc, (app_comm_cons _ _ SLASH), (app_comm_cons _ _ LT).
  rewrite app_assoc, reverse_app. done.
Qed.

Lemma length_closed_span (name : list N) (ps : list (list N * list N * list N))
    (gap : list N) :
  length (closed_span name ps gap)
  = length name + length (params_text ps) + length gap + length name + 5.
Proof. unfold closed_span. rewrite close_tag_unfold. len_eq. Qed.

(** The inner loop over closed parameters up to the closing tag. *)
Lemma scan_params_closed_span (name gap r : list N) (c : nat)
    (ps : list (list N * list N * list N)) :
  ∀ (fuel : nat) (a : list N) (d : list (list N * list N)),
  Forall (closed_param name) ps → LT ∉ gap →
  c = length a + length (params_text ps) + length gap →
  length ps < fuel →
  scan_params fuel (a ++ params_text ps ++ gap ++ r) c (length a) d
  = Some (foldl (λ d p, dict_set p.1.2 (strip p.2) d) d ps).
Proof.
  induction ps as [|[[g k] v] ps IH]; intros fuel a d Hps Hg Hc Hfuel.
  - destruct fuel as [|fuel]; [simpl in Hfuel; lia|].
    cbn [params_text fmap list_fmap concat app foldl scan_params].
    simpl in Hc. destruct (Nat.ltb_spec (length a) c); [|done].
    rewrite (find_in_at _ _ a (gap ++ r)) by done.
    replace (c - length a) with (length gap) by lia.
    rewrite take_app_length, find_first_absent by done. done.
  - destruct fuel as [|fuel]; [simpl in Hfuel; lia|].
    apply Forall_cons in Hps as [(Hg' & (_ & Hk & _) & _ & Hv) Hps].
    simpl in Hg', Hk, Hv. rewrite length_params_text_cons in Hc.
    unfold params_text at 1. cbn [fmap list_fmap concat].
    fold (params_text ps). rewrite <-(app_assoc (param_text _)).
    rewrite scan_params_closed; [|done..|rewrite length_param_text in Hc; lia].
    rewrite <-length_app, (app_assoc a).
    rewrite IH; [done..| |simpl in Hfuel; lia].
    rewrite length_app. lia.
Qed.

(** One turn of the outer loop over plain text that a tag follows. *)
Lemma parse_loop_text (fuel : nat) (pre r : list N)
    (blocks : list AssistantMessageContent) :
  LT ∉ pre → pre ≠ [] →
  parse_loop (S fuel) (pre ++ LT :: r) 0 blocks
  = parse_loop fuel (pre ++ LT :: r) (length pre)
      (append_text blocks (strip pre) false).
Proof.
  intros Hpre Hne. cbn [parse_loop].
  destruct (Nat.ltb_spec 0 (length (pre ++ LT :: r))) as [_|Hlen];
    [|rewrite length_app in Hlen; simpl in Hlen; lia].
  destruct pre as [|c pre]; [done|].
  rewrite bool_decide_eq_false_2; last first.
  { simpl. intros [= ->]. apply Hpre. by left. }
  rewrite (find_at _ _ [] ((c :: pre) ++ LT :: r)) by done.
  rewrite find_first_char by done. cbn [fmap option_fmap option_map].
  rewrite (slice_at _ [] (c :: pre) (LT :: r)) by (done || simpl; lia).
  done.
Qed.

(** The turn over the text that ends the message. *)
Lemma parse_loop_last_text (fuel : nat) (a post : list N)
    (blocks : list AssistantMessageContent) :
  LT ∉ post → post ≠ [] →
  parse_loop (S fuel) (a ++ post) (length a) blocks
  = Some (append_text blocks (strip post)
            (negb (endswith (strip post) [DOT]))).
Proof.
  intros Hpost Hne. cbn [parse_loop].
  destruct (Nat.ltb_spec (length a) (length (a ++ post))) as [_|Hlen];
    [|rewrite length_app in Hlen; destruct post; [done|simpl in Hlen; lia]].
  rewrite bool_decide_eq_false_2; last first.
  { rewrite lookup_app_r, Nat.sub_diag by done. destruct post as [|c post]; [done|].
    simpl. intros [= ->]. apply Hpost. by left. }
  rewrite (find_at _ _ a post) by done.
  rewrite find_first_absent by done. cbn [fmap option_fmap option_map].
  unfold slice_from. by rewrite drop_app_length, strip_idemp.
Qed.

Lemma parse_loop_end (fuel : nat) (s : list N)
    (blocks : list AssistantMessageContent) :
  parse_loop (S fuel) s (length s) blocks = Some blocks.
Proof. cbn [parse_loop]. by rewrite Nat.ltb_irrefl. Qed.

(** The turn over a complete tool use. *)
Lemma parse_loop_closed_span (fuel : nat) (a name gap r : list N)
    (ps : list (list N * list N * list N))
    (blocks : list AssistantMessageContent) :
  identifier name → Forall (closed_param name) ps → LT ∉ gap →
  parse_loop (S fuel) (a ++ closed_span name ps gap ++ r) (length a) blocks
  = parse_loop fuel (a ++ closed_span name ps gap ++ r)
      (length a + length (closed_span name ps gap))
      (blocks ++ [if all_values (collected ps)
                  then ToolUse name (collected ps) false
                  else TextContent (closed_span name ps gap) false]).
Proof.
  intros (Hn1 & Hn2 & Hn3) Hps Hg.
  pose proof (length_closed_span name ps gap) as Hlen.
  pose proof (strip_closed_span name ps gap) as Hstrip.
  set (span := closed_span name ps gap) in *.
  set (s := a ++ span ++ r).
  assert (s = a ++ LT :: name ++ GT :: params_text ps ++ gap
                ++ close_tag name ++ r) as Hs
    by (subst s span; unfold closed_span; list_eq').
  assert (length a + length span ≤ length s) as Hs_len
    by (subst s; rewrite !length_app; lia).
  cbn [parse_loop].
  destruct (Nat.ltb_spec (length a) (length s)); [|lia].
  rewrite bool_decide_eq_true_2; last first.
  { rewrite Hs, lookup_app_r, Nat.sub_diag by done. done. }
  rewrite (find_at _ s a ((LT :: name) ++ GT :: params_text ps ++ gap
             ++ close_tag name ++ r)) by (done || rewrite Hs; list_eq').
  rewrite find_first_char by (rewrite not_elem_of_cons; done).
  cbn [fmap option_fmap option_map length].
  rewrite (slice_at s (a ++ [LT]) name (GT :: params_text ps ++ gap
             ++ close_tag name ++ r))
    by (rewrite ?Hs; list_eq' || len_eq).
  rewrite (find_at _ s (a ++ LT :: name) (GT :: params_text ps ++ gap
             ++ close_tag name ++ r))
    by (rewrite ?Hs; list_eq' || len_eq).
  rewrite (close_tag_unfold name) at 1.
  rewrite find_first_next by (by apply starts_with_head).
  rewrite <-(close_tag_unfold name).
  rewrite find_first_close_tag_params by done.
  rewrite (close_tag_unfold name) at 1.
  rewrite find_first_skip by done.
  rewrite <-(close_tag_unfold name), find_first_here.
  cbn [fmap option_fmap option_map].
  set (c := length a + length name + length (params_text ps) + length gap + 2).
  match goal with
  | |- context [scan_params _ s ?c' ?start []] =>
    replace c' with c by (unfold c; lia);
    replace start with (length (a ++ LT :: name ++ [GT])) by len_eq
  end.
  assert (scan_params (S (length s)) s c
            (length (a ++ LT :: name ++ [GT])) [] = Some (collected ps)) as ->.
  { assert (s = (a ++ LT :: name ++ [GT]) ++ params_text ps ++ gap
                  ++ close_tag name ++ r) as Hs'
      by (rewrite Hs; list_eq').
    rewrite Hs' at 2. apply (scan_params_closed_span name); try done.
    - unfold c. len_eq.
    - pose proof (length_params_text ps).
      rewrite Hs', !length_app. lia. }
  assert (c + length (close_tag name) = length a + length span) as Hend.
  { rewrite length_close_tag, Hlen. unfold c. lia. }
  rewrite Hend.
  rewrite (slice_at s a span r) by done. rewrite Hstrip.
  destruct (all_values (collected ps)); [done|].
  unfold append_text. subst span. unfold closed_span at 1. done.
Qed.

(** More fuel does not change what the outer loop returns. *)
Lemma parse_loop_more_fuel (fuel : nat) :
  ∀ (fuel' : nat) (s : list N) (i : nat)
    (blocks result : list AssistantMessageContent),
  parse_loop fuel s i blocks = Some result → fuel ≤ fuel' →
  parse_loop fuel' s i blocks = Some result.
Proof.
  induction fuel as [|fuel IH]; intros fuel' s i blocks result E Hle; [done|].
  destruct fuel' as [|fuel']; [lia|]. cbn [parse_loop] in *.
  destruct (i <? length s); [|done].
  case_bool_decide.
  - destruct (find [GT] s i) as [e|]; [|done].
    destruct (find (close_tag _) s e) as [c|]; [|done].
    destruct (scan_params _ _ _ _ _) as [d|]; [|done].
    apply (IH fuel'); [done|lia].
  - destruct (find [LT] s i) as [k|]; [|done].
    apply (IH fuel'); [done|lia].
Qed.

(** X1: a complete tool use between two stretches of tag-free text is parsed
    into the text before it (complete), the tool use with the parameters in
    order of appearance, and the text after it (partial unless it ends with a
    period); blank text gives no block, and when a parameter value is blank
    the tagged span becomes a complete text block instead of a tool use. *)
Theorem parse_tool_use_in_text (pre name gap post : list N)
    (ps : list (list N * list N * list N)) :
  LT ∉ pre → identifier name → Forall (closed_param name) ps →
  LT ∉ gap → LT ∉ post →
  parse_assistant_message (pre ++ closed_span name ps gap ++ post) =
    Some (text_block pre false
          ++ [if all_values (collected ps)
              then ToolUse name (collected ps) false
              else TextContent (closed_span name ps gap) false]
          ++ text_block post (negb (endswith (strip post) [DOT]))).
Proof.
  intros Hpre Hname Hps Hgap Hpost. unfold parse_assistant_message.
  pose proof (length_closed_span name ps gap) as Hlen.
  set (span := closed_span name ps gap) in *.
  set (block := if all_values (collected ps) then _ else _).
  apply (parse_loop_more_fuel 4);
    [|rewrite !length_app; lia].
  assert (parse_loop 3 (pre ++ span ++ post) (length pre)
            (text_block pre false)
          = Some (text_block pre false ++ [block]
                  ++ text_block post (negb (endswith (strip post) [DOT]))))
    as Htool.
  { unfold span. rewrite parse_loop_closed_span by done. fold span block.
    destruct post as [|c post].
    - replace (length pre + length span) with (length (pre ++ span ++ []))
        by (rewrite !length_app; simpl; lia).
      by rewrite parse_loop_end.
    - rewrite <-length_app, app_assoc, parse_loop_last_text by done.
      unfold text_block, append_text.
      destruct (truthy (strip (c :: post))); by rewrite <-?app_assoc, ?app_nil_r. }
  destruct pre as [|c pre].
  - apply (parse_loop_more_fuel 3); [exact Htool|lia].
  - assert ((c :: pre) ++ span ++ post
            = (c :: pre) ++ LT :: (name ++ [GT] ++ params_text ps ++ gap
                                     ++ close_tag name) ++ post) as Hs
      by (unfold span, closed_span; list_eq').
    rewrite Hs, parse_loop_text, <-Hs by done. exact Htool.
Qed.

Lemma parse_tool_use_in_text_witness :
  parse_assistant_message (py "Here is my response:
<read_file>
<path>src/main.py</path>
</read_file>
Please review the file contents.")
  = Some [TextContent (py "Here is my response:") false;
          ToolUse (py "read_file") [(py "path", py "src/main.py")] false;
          TextContent (py "Please review the file contents.") false].
Proof.
  pose proof (parse_tool_use_in_text (py "Here is my response:
") (py "read_file") (py "
") (py "
Please review the file contents.") [(py "
", py "path", py "src/main.py")]) as H.
  apply H; clear H.
  - by apply (bool_decide_unpack _).
  - repeat split; by apply (bool_decide_unpack _).
  - repeat constructor; simpl; try by apply (bool_decide_unpack _).
  - by apply (bool_decide_unpack _).
  - by apply (bool_decide_unpack _).
Defined.

(** ** The message parser: tags left open, and what every result satisfies *)

Lemma strip_nonempty (c : N) (r : list N) :
  isspace c = false → strip (c :: r) ≠ [].
Proof.
  intros Hc. unfold strip. rewrite (lstrip_id (c :: r)) by done.
  destruct (rstrip_split (c :: r)) as (ws & E & Hws).
  intros Hnil. rewrite Hnil in E. simpl in E. subst ws.
  apply Forall_cons in Hws as [Hc' _]. congruence.
Qed.

Lemma append_text_nonempty (blocks : list AssistantMessageContent)
    (text : list N) (p : bool) :
  text ≠ [] → append_text blocks text p = blocks ++ [TextContent text p].
Proof. intros Hne. unfold append_text. by destruct text. Qed.

Lemma text_block_unfold (blocks : list AssistantMessageContent)
    (text : list N) (p : bool) :
  append_text blocks (strip text) p = blocks ++ text_block text p.
Proof.
  unfold text_block, append_text.
  destruct (truthy (strip text)); by rewrite ?app_nil_r.
Qed.

(** The turn of the outer loop at a ['<'] that no ['>'] follows ... *)
Lemma parse_loop_no_gt (fuel : nat) (a rest : list N)
    (blocks : list AssistantMessageContent) :
  GT ∉ rest →
  parse_loop (S fuel) (a ++ LT :: rest) (length a) blocks
  = Some (blocks ++ [TextContent (strip (LT :: rest)) true]).
Proof.
  intros Hrest. cbn [parse_loop].
  destruct (Nat.ltb_spec (length a) (length (a ++ LT :: rest))) as [_|Hlen];
    [|rewrite length_app in Hlen; simpl in Hlen; lia].
  rewrite bool_decide_eq_true_2
    by (by rewrite lookup_app_r, Nat.sub_diag by done).
  rewrite (find_at _ _ a (LT :: rest)) by done.
  rewrite find_first_absent by (rewrite not_elem_of_cons; done).
  cbn [fmap option_fmap option_map]. unfold slice_from.
  rewrite drop_app_length. apply f_equal, append_text_nonempty.
  by apply strip_nonempty.
Qed.

(** ... or whose tag name has no closing tag after it. *)
Lemma parse_loop_no_closer (fuel : nat) (a name tail : list N)
    (blocks : list AssistantMessageContent) :
  GT ∉ name → contains (close_tag name) tail = false →
  parse_loop (S fuel) (a ++ LT :: name ++ GT :: tail) (length a) blocks
  = Some (blocks ++ [TextContent (strip (LT :: name ++ GT :: tail)) true]).
Proof.
  intros Hname Hclose. cbn [parse_loop].
  set (s := a ++ LT :: name ++ GT :: tail).
  destruct (Nat.ltb_spec (length a) (length s)) as [_|Hlen];
    [|subst s; rewrite length_app in Hlen; simpl in Hlen; lia].
  rewrite bool_decide_eq_true_2
    by (subst s; by rewrite lookup_app_r, Nat.sub_diag by done).
  rewrite (find_at _ s a ((LT :: name) ++ GT :: tail)) by done.
  rewrite find_first_char by (rewrite not_elem_of_cons; done).
  cbn [fmap option_fmap option_map length].
  rewrite (slice_at s (a ++ [LT]) name (GT :: tail))
    by (subst s; list_eq' || len_eq).
  rewrite (find_at _ s (a ++ LT :: name) (GT :: tail))
    by (subst s; list_eq' || len_eq).
  rewrite close_tag_unfold, find_first_next by (by apply starts_with_head).
  rewrite <-close_tag_unfold.
  unfold contains in Hclose. apply bool_decide_eq_false in Hclose.
  destruct (find_first (close_tag name) tail) as [k|] eqn:E;
    [destruct Hclose; by eexists|].
  cbn [fmap option_fmap option_map]. unfold slice_from. subst s.
  rewrite (drop_app_length a). apply f_equal, append_text_nonempty.
  by apply strip_nonempty.
Qed.

(** X2: when text without a tag is followed by a ['<'] whose tag is never
    completed - no ['>'] follows it, or the tag name it opens has no closing
    tag - the parser emits the text before it as a complete block (none if
    blank) and everything from the ['<'] to the end, trimmed, as one partial
    text block. *)
Theorem parse_unterminated_tag (pre rest : list N) :
  LT ∉ pre →
  (GT ∉ rest) ∨
  (∃ name tail, rest = name ++ GT :: tail ∧ (GT ∉ name) ∧
                contains (close_tag name) tail = false) →
  parse_assistant_message (pre ++ LT :: rest) =
    Some (text_block pre false ++ [TextContent (strip (LT :: rest)) true]).
Proof.
  intros Hpre Hrest. unfold parse_assistant_message.
  apply (parse_loop_more_fuel 2);
    [|rewrite length_app; simpl; lia].
  assert (∀ blocks,
            parse_loop 1 (pre ++ LT :: rest) (length pre) blocks
            = Some (blocks ++ [TextContent (strip (LT :: rest)) true])) as Htag.
  { intros blocks. destruct Hrest as [Hgt|(name & tail & -> & Hname & Hclose)].
    - by apply parse_loop_no_gt.
    - by apply parse_loop_no_closer. }
  destruct pre as [|c pre].
  - apply (parse_loop_more_fuel 1); [apply (Htag [])|lia].
  - rewrite parse_loop_text, text_block_unfold by done. apply Htag.
Qed.

Lemma parse_unterminated_tag_witness :
  parse_assistant_message (py "<read_file>
<path>src/main.py")
  = Some [TextContent (py "<read_file>
<path>src/main.py") true].
Proof.
  pose proof (parse_unterminated_tag [] (py "read_file>
<path>src/main.py")) as H.
  apply H; clear H.
  - by apply (bool_decide_unpack _).
  - right. exists (py "read_file"), (py "
<path>src/main.py"). split; [reflexivity|].
    split; [by apply (bool_decide_unpack _)|reflexivity].
Defined.

Lemma dict_set_keys (k v : list N) (d : list (list N * list N)) :
  NoDup d.*1 → NoDup (dict_set k v d).*1 ∧
  ∀ k', k' ∈ (dict_set k v d).*1 ↔ k' = k ∨ k' ∈ d.*1.
Proof.
  induction d as [|[k0 v0] d IH]; intros Hd.
  - split; [apply NoDup_singleton|]. intros k'. cbn [dict_set fmap list_fmap fst].
    rewrite list_elem_of_singleton, elem_of_nil. tauto.
  - apply NoDup_cons in Hd as [Hk0 Hd]. destruct (IH Hd) as [IH1 IH2].
    cbn [dict_set]. case_decide as Hk; cbn [fmap list_fmap fst] in *.
    + subst k0. split; [by apply NoDup_cons|]. intros k'.
      rewrite !elem_of_cons. tauto.
    + split.
      * apply NoDup_cons. split; [|done]. rewrite IH2. intros [->|?]; done.
      * intros k'. rewrite !elem_of_cons, IH2. tauto.
Qed.

Lemma dict_set_values (P : list N → Prop) (k v : list N)
    (d : list (list N * list N)) :
  P v → Forall (λ kv, P kv.2) d → Forall (λ kv, P kv.2) (dict_set k v d).
Proof.
  intros Hv. induction 1 as [|[k0 v0] d H0 Hd IH]; cbn [dict_set].
  - by repeat constructor.
  - case_decide; constructor; done.
Qed.

(** The dictionary the inner loop returns has distinct keys and trimmed
    values. *)
Lemma scan_params_dict (fuel : nat) :
  ∀ (s : list N) (c ps : nat) (d d' : list (list N * list N)),
  scan_params fuel s c ps d = Some d' →
  NoDup d.*1 → Forall (λ kv, strip kv.2 = kv.2) d →
  NoDup d'.*1 ∧ Forall (λ kv, strip kv.2 = kv.2) d'.
Proof.
  induction fuel as [|fuel IH]; intros s c ps d d' E Hkeys Hvals; [done|].
  cbn [scan_params] in E. destruct (ps <? c); [|by injection E as <-].
  destruct (find_in [LT] s ps c) as [o|]; [|by injection E as <-].
  destruct (find [GT] s o) as [pc|]; [|by injection E as <-].
  destruct (find (close_tag _) s pc) as [pe|]; [|by injection E as <-].
  apply IH in E; [done| |].
  - by apply dict_set_keys.
  - apply (dict_set_values (λ v, strip v = v)); [apply strip_idemp|done].
Qed.

Lemma all_values_nonempty (d : list (list N * list N)) :
  all_values d = true → Forall (λ kv, strip kv.2 = kv.2) d →
  Forall (λ kv, kv.2 ≠ [] ∧ strip kv.2 = kv.2) d.
Proof.
  unfold all_values. intros Hall Hd. induction Hd as [|[k v] d Hv Hd IH];
    [done|].
  cbn [forallb] in Hall. apply andb_true_iff in Hall as [Hv' Hall].
  constructor; [|by apply IH]. simpl in *. split; [|done].
  rewrite Hv in Hv'. by destruct v.
Qed.

Lemma append_text_tidy (blocks : list AssistantMessageContent)
    (text : list N) (p : bool) :
  ∃ new, append_text blocks (strip text) p = blocks ++ new ∧
         Forall tidy new ∧ (new = [] ∨ new = [TextContent (strip text) p]).
Proof.
  unfold append_text. destruct (strip text) as [|c t] eqn:E; simpl.
  - exists []. rewrite app_nil_r. split; [done|]. split; [done|by left].
  - exists [TextContent (c :: t) p]. split; [done|]. split; [|by right].
    constructor; [|done]. split; [done|]. by rewrite <-E, strip_idemp.
Qed.

(** What the outer loop adds to the blocks it starts from. *)
Lemma parse_loop_blocks (fuel : nat) :
  ∀ (s : list N) (i : nat) (blocks result : list AssistantMessageContent),
  parse_loop fuel s i blocks = Some result →
  ∃ new, result = blocks ++ new ∧ Forall tidy new ∧
         Forall (λ b, partial b = false) (removelast new).
Proof.
  induction fuel as [|fuel IH]; intros s i blocks result E; [done|].
  cbn [parse_loop] in E.
  destruct (i <? length s); [|injection E as <-; exists []; by rewrite app_nil_r].
  assert (∀ text p,
            Some (append_text blocks (strip text) p) = Some result →
            ∃ new, result = blocks ++ new ∧ Forall tidy new ∧
                   Forall (λ b, partial b = false) (removelast new)) as Hbreak.
  { intros text p [= <-].
    destruct (append_text_tidy blocks text p) as (new & -> & Htidy & Hcase).
    exists new. split; [done|]. split; [done|].
    destruct Hcase as [->| ->]; constructor. }
  assert (∀ i' b,
            parse_loop fuel s i' (blocks ++ [b]) = Some result →
            tidy b → partial b = false →
            ∃ new, result = blocks ++ new ∧ Forall tidy new ∧
                   Forall (λ b, partial b = false) (removelast new)) as Hnext.
  { intros i' b E' Hb Hp. apply IH in E' as (new & -> & Htidy & Hpart).
    exists (b :: new). rewrite <-app_assoc. split; [done|].
    split; [by constructor|]. destruct new; [done|]. by constructor. }
  case_bool_decide.
  - destruct (find [GT] s i) as [e|]; [|by eapply Hbreak].
    destruct (find (close_tag _) s e) as [c|]; [|by eapply Hbreak].
    destruct (scan_params _ _ _ _ _) as [d|] eqn:Ed; [|done].
    apply scan_params_dict in Ed as [Hkeys Hvals]; [|apply NoDup_nil_2|done].
    destruct (all_values d) eqn:Hall.
    + eapply Hnext; [done| |done]. split; [done|]. split; [done|].
      by apply all_values_nonempty.
    + destruct (append_text_tidy blocks
                  (slice s i (c + length (close_tag (slice s (i + 1) e)))) false)
        as (new & Enew & Htidy & [->| ->]).
      * rewrite Enew, app_nil_r in E. by apply IH in E.
      * rewrite Enew in E. eapply Hnext; [done| |done].
        by apply Forall_inv in Htidy.
  - destruct (find [LT] s i) as [k|]; [|by eapply Hbreak].
    destruct (append_text_tidy blocks (slice s i k) false)
      as (new & Enew & Htidy & [->| ->]).
    + rewrite Enew, app_nil_r in E. by apply IH in E.
    + rewrite Enew in E. eapply Hnext; [done| |done].
      by apply Forall_inv in Htidy.
Qed.

(** X3: in every result of the parser each text block is trimmed and not
    empty, each tool use is complete, with distinct parameter names and
    values that are trimmed and not empty, and no block but the last is
    partial. *)
Theorem parse_result_tidy (s : list N) (blocks : list AssistantMessageContent) :
  parse_assistant_message s = Some blocks →
  Forall tidy blocks ∧ Forall (λ b, partial b = false) (removelast blocks).
Proof.
  unfold parse_assistant_message. intros E.
  by apply parse_loop_blocks in E as (new & -> & Htidy & Hpart).
Qed.

Lemma parse_result_tidy_witness :
  Forall tidy [TextContent (py "Done.") false].
Proof.
  apply (parse_result_tidy (py "Done.") [TextContent (py "Done.") false]).
  reflexivity.
Defined.

(** X4: the parser returns a result on every message: both of its loops
    come to an end. *)
Theorem parse_terminates (s : list N) :
  ∃ blocks, parse_assistant_message s = Some blocks.
Proof.
  destruct (parse_loop_total (S (length s)) s 0 []) as [blocks E]; [lia|].
  by exists blocks.
Qed.

(** ** The terminal process: what output does to the reader *)

Lemma started_reachable `{Unicode} (command : list N) (cwd : option (list N)) :
  process_reachable (started command cwd).
Proof. apply rtc_once. apply step_run. Qed.

(** X5: in every state a process object can reach, a reader that receives
    at least one chunk raises [AttributeError] at the first one: that chunk,
    cleaned, is appended to the output buffer, but no line, completed or
    continue event is emitted and the hot flag and the timer are left as
    they were. *)
Theorem reader_dies_on_output `{Unicode} (p : TerminalProcess)
    (data : list N) (chunks : list (list N)) :
  process_reachable p → is_Some (_process p) →
  let out := _read_output (data :: chunks) p in
  out.1 = Raise (AttributeError (py "_buffer")) ∧
  _output_buffer out.2
    = _output_buffer p ++ _handle_vscode_sequences (_strip_ansi data) ∧
  emitted out.2 = emitted p ∧
  _is_hot out.2 = _is_hot p ∧
  _hot_timer out.2 = _hot_timer p.
Proof.
  intros Hp [po Hpo] out. subst out.
  unfold _read_output. rewrite bind_get, Hpo.
  rewrite bind_unfold. cbn [for_each].
  rewrite bind_unfold, process_output_unset by by apply buffer_never_set.
  done.
Qed.

Lemma reader_dies_on_output_witness :
  let p := started (py "ls") None in
  (@_read_output ascii_case [py "a.txt
"; py "b.txt
"] p).1 = Raise (AttributeError (py "_buffer")).
Proof.
  intros p.
  apply (@reader_dies_on_output ascii_case p (py "a.txt
") [py "b.txt
"]).
  - apply started_reachable.
  - by eexists.
Defined.

(** ** The terminal process: cleaning the output *)

Lemma re_sub_empty_no_match (m : list N → option nat) (text : list N) :
  (∀ c r, c ∈ text → m (c :: r) = None) →
  re_sub_empty m 0 text = text.
Proof.
  induction text as [|c text IH]; intros Hm; [done|].
  cbn [re_sub_empty]. rewrite Hm by (by left).
  f_equal. apply IH. intros c' r Hc'. apply Hm. by right.
Qed.

Lemma re_sub_empty_skip (m : list N → option nat) (x rest : list N) :
  re_sub_empty m (length x) (x ++ rest) = re_sub_empty m 0 rest.
Proof.
  induction x as [|c x IH]; [done|].
  destruct rest as [|d rest]; simpl; [|done].
  - rewrite app_nil_r in *. simpl in IH. exact IH.
Qed.

Lemma re_sub_empty_prefix (m : list N → option nat) (pre rest : list N) :
  (∀ c r, c ∈ pre → m (c :: r) = None) →
  re_sub_empty m 0 (pre ++ rest) = pre ++ re_sub_empty m 0 rest.
Proof.
  induction pre as [|c pre IH]; intros Hm; [done|].
  cbn [app re_sub_empty]. rewrite Hm by (by left).
  f_equal. apply IH. intros c' r Hc'. apply Hm. by right.
Qed.

Lemma ansi_escape_head (c : N) (r : list N) :
  c ≠ 27%N → match_length ansi_escape (c :: r) = None.
Proof.
  intros Hc. unfold match_length, ansi_escape.
  destruct c as [|p]; [done|].
  do 5 (destruct p as [p|p|]; try done).
Qed.

Lemma vscode_sequence_head (c : N) (r : list N) :
  c ≠ 27%N → match_length vscode_sequence (c :: r) = None.
Proof.
  intros Hc. unfold match_length, vscode_sequence.
  destruct c as [|p]; [done|].
  do 5 (destruct p as [p|p|]; try done).
Qed.

(** X6: text without an escape character (code 27) passes both cleaning
    steps of [_process_output] unchanged. *)
Theorem escape_free_unchanged (text : list N) :
  27%N ∉ text →
  _strip_ansi text = text ∧ _handle_vscode_sequences text = text.
Proof.
  intros Hesc. split.
  - apply re_sub_empty_no_match. intros c r Hc. apply ansi_escape_head.
    by intros ->.
  - apply re_sub_empty_no_match. intros c r Hc. apply vscode_sequence_head.
    by intros ->.
Qed.

Lemma escape_free_unchanged_witness :
  _strip_ansi (py "npm run dev") = py "npm run dev"
  ∧ _handle_vscode_sequences (py "npm run dev") = py "npm run dev".
Proof.
  apply (escape_free_unchanged (py "npm run dev")).
  apply (bool_decide_unpack _). vm_compute. exact I.
Defined.

Lemma re_sub_empty_match (m : list N → option nat) (c : N) (x rest : list N) :
  m (c :: x ++ rest) = Some (S (length x)) →
  re_sub_empty m 0 (c :: x ++ rest) = re_sub_empty m 0 rest.
Proof.
  intros Hm. cbn [re_sub_empty]. rewrite Hm. apply re_sub_empty_skip.
Qed.

Lemma in_range_spec (lo hi c : N) :
  in_range lo hi c = true ↔ (lo ≤ c ∧ c ≤ hi)%N.
Proof.
  unfold in_range. rewrite andb_true_iff, !N.leb_le. done.
Qed.

Lemma in_range_apart (lo hi lo' hi' c : N) :
  (hi < lo' ∨ hi' < lo)%N → in_range lo hi c = true → in_range lo' hi' c = false.
Proof.
  intros Hd [??]%in_range_spec.
  destruct (in_range lo' hi' c) eqn:E; [|done].
  apply in_range_spec in E. lia.
Qed.

Lemma skip_class_app (lo hi : N) (xs r : list N) :
  Forall (λ c, in_range lo hi c = true) xs →
  skip_class lo hi (xs ++ r) = skip_class lo hi r.
Proof.
  induction 1 as [|c xs Hc _ IH]; [done|].
  cbn [app skip_class]. by rewrite Hc.
Qed.

Lemma skip_class_stop (lo hi c : N) (r : list N) :
  in_range lo hi c = false → skip_class lo hi (c :: r) = c :: r.
Proof. intros Hc. cbn [skip_class]. by rewrite Hc. Qed.

Lemma until_bel_app (body rest : list N) :
  7%N ∉ body → until_bel (body ++ 7%N :: rest) = Some rest.
Proof.
  induction body as [|c body IH]; intros Hb; [done|].
  apply not_elem_of_cons in Hb as [Hc Hb].
  cbn [app until_bel].
  destruct (N.eqb_spec c 7) as [->|_]; [done|]. by apply IH.
Qed.

Lemma ansi_escape_csi (ps is_ : list N) (f : N) (rest : list N) :
  Forall (λ c, in_range 48 63 c = true) ps →
  Forall (λ c, in_range 32 47 c = true) is_ →
  in_range 64 126 f = true →
  ansi_escape (27%N :: 91%N :: ps ++ is_ ++ f :: rest) = Some rest.
Proof.
  intros Hps His Hf. unfold ansi_escape.
  change (in_range 64 90 91 || in_range 92 95 91) with false.
  change (91 =? 91)%N with true. cbv iota.
  rewrite skip_class_app by done.
  assert (skip_class 48 63 (is_ ++ f :: rest) = is_ ++ f :: rest) as ->.
  { destruct His as [|i is_ Hi His]; cbn [app].
    - apply skip_class_stop. revert Hf. apply in_range_apart. lia.
    - apply skip_class_stop. revert Hi. apply in_range_apart. lia. }
  rewrite skip_class_app by done.
  rewrite skip_class_stop by (revert Hf; apply in_range_apart; lia).
  by rewrite Hf.
Qed.

(** X7: escape sequences are cut out where they stand.  After text without
    an escape character, [_strip_ansi] removes a CSI sequence (ESC, an
    opening bracket, parameter characters 0-?, intermediate characters
    space-/ and one final character @-~) and goes on with what follows;
    [_handle_vscode_sequences] does the same with a sequence that starts
    with ESC ]633; and runs to the first BEL. *)
Theorem escape_sequences_removed (pre rest : list N) :
  27%N ∉ pre →
  (∀ (ps is_ : list N) (f : N),
      Forall (λ c, in_range 48 63 c = true) ps →
      Forall (λ c, in_range 32 47 c = true) is_ →
      in_range 64 126 f = true →
      _strip_ansi (pre ++ 27%N :: 91%N :: ps ++ is_ ++ f :: rest)
        = pre ++ _strip_ansi rest) ∧
  (∀ body : list N,
      7%N ∉ body →
      _handle_vscode_sequences
          (pre ++ 27%N :: 93%N :: 54%N :: 51%N :: 51%N :: 59%N
               :: body ++ 7%N :: rest)
        = pre ++ _handle_vscode_sequences rest).
Proof.
  intros Hpre. split.
  - intros ps is_ f Hps His Hf. unfold _strip_ansi.
    rewrite re_sub_empty_prefix
      by (intros c r Hc; apply ansi_escape_head; by intros ->).
    f_equal.
    replace (27%N :: 91%N :: ps ++ is_ ++ f :: rest)
      with (27%N :: (91%N :: ps ++ is_ ++ [f]) ++ rest)
      by (cbn [app]; by rewrite <-!app_assoc).
    apply re_sub_empty_match.
    replace (27%N :: (91%N :: ps ++ is_ ++ [f]) ++ rest)
      with (27%N :: 91%N :: ps ++ is_ ++ f :: rest)
      by (cbn [app]; by rewrite <-!app_assoc).
    unfold match_length. rewrite ansi_escape_csi by done.
    cbn [fmap option_fmap option_map]. f_equal.
    cbn [length]. rewrite !length_app. cbn [length]. lia.
  - intros body Hbody. unfold _handle_vscode_sequences.
    rewrite re_sub_empty_prefix
      by (intros c r Hc; apply vscode_sequence_head; by intros ->).
    f_equal.
    replace (27%N :: 93%N :: 54%N :: 51%N :: 51%N :: 59%N :: body ++ 7%N :: rest)
      with (27%N :: (93%N :: 54%N :: 51%N :: 51%N :: 59%N :: body ++ [7%N]) ++ rest)
      by (cbn [app]; by rewrite <-!app_assoc).
    apply re_sub_empty_match.
    replace (27%N :: (93%N :: 54%N :: 51%N :: 51%N :: 59%N :: body ++ [7%N]) ++ rest)
      with (27%N :: 93%N :: 54%N :: 51%N :: 51%N :: 59%N :: body ++ 7%N :: rest)
      by (cbn [app]; by rewrite <-!app_assoc).
    unfold match_length, vscode_sequence. rewrite until_bel_app by done.
    cbn [fmap option_fmap option_map]. f_equal.
    cbn [length]. rewrite !length_app. cbn [length]. lia.
Qed.

Lemma escape_sequences_removed_witness :
  _strip_ansi (py "ok " ++ 27%N :: 91%N :: py "1;32" ++ [] ++ 109%N :: py "done")
    = py "ok " ++ _strip_ansi (py "done").
Proof.
  apply (escape_sequences_removed (py "ok ") (py "done")).
  - apply (bool_decide_unpack _). vm_compute. exact I.
  - repeat constructor.
  - constructor.
  - reflexivity.
Defined.

(** ** The terminal process: retrieving the output *)

Lemma rstrip_clean_last (s : list N) : clean_head (reverse (rstrip s)).
Proof. unfold rstrip. rewrite reverse_involutive. apply lstrip_clean. Qed.

Lemma join_cons_snoc (p : list N) (init : list (list N)) (x : list N) :
  join [NL] (p :: init ++ [x]) = p ++ NL :: join [NL] (init ++ [x]).
Proof. cbn [join]. by destruct init. Qed.

(** The last line of a text, the lines before it and the text up to it. *)
Lemma split_nl_last (s : list N) :
  ∃ (init : list (list N)) (l prefix : list N),
    split_nl s = init ++ [l] ∧ s = prefix ++ l ∧ (NL ∉ l) ∧
    (∀ x, join [NL] (init ++ [x]) = prefix ++ x) ∧
    (prefix = [] ∨ ∃ q, prefix = q ++ [NL]).
Proof.
  induction s as [|c s (init & l & prefix & Hs & E & Hl & Hj & Hp)].
  - exists [], [], []. repeat split; try done. apply not_elem_of_nil. by left.
  - cbn [split_nl]. destruct (N.eqb_spec c NL) as [->|Hc].
    + exists ([] :: init), l, (NL :: prefix). rewrite Hs.
      repeat split; try done.
      * by rewrite E.
      * intros x. rewrite <-app_comm_cons, join_cons_snoc. by rewrite Hj.
      * right. destruct Hp as [->|[q ->]]; [by exists []|by exists (NL :: q)].
    + rewrite Hs. destruct init as [|i init]; cbn [app].
      * assert (prefix = []) as ->.
        { specialize (Hj []). rewrite app_nil_r in Hj. by rewrite <-Hj. }
        exists [], (c :: l), []. repeat split; try done.
        -- by rewrite E.
        -- apply not_elem_of_cons. done.
      * exists ((c :: i) :: init), l, (c :: prefix). repeat split; try done.
        -- by rewrite E.
        -- intros x. specialize (Hj x).
           rewrite <-app_comm_cons, join_cons_snoc in Hj.
           rewrite <-app_comm_cons, join_cons_snoc. cbn [app].
           by rewrite <-Hj.
        -- right. destruct Hp as [->|[q ->]].
           ++ specialize (Hj []). rewrite <-app_comm_cons, join_cons_snoc in Hj.
              by destruct i.
           ++ by exists (c :: q).
Qed.

Lemma lstrip_clean_last (s : list N) (c : N) :
  isspace c = false → lstrip (s ++ [c]) ≠ [].
Proof.
  intros Hc. induction s as [|d s IH]; cbn [app lstrip].
  - by rewrite Hc.
  - by destruct (isspace d).
Qed.

Lemma is_prompt_not_space (c : N) : is_prompt c = true → isspace c = false.
Proof.
  unfold is_prompt. rewrite !orb_true_iff, !N.eqb_eq.
  intros [[[->| ->]| ->]| ->]; reflexivity.
Qed.

(** The substitution on a line that does not end in white space. *)
Lemma prompt_sub_line (l : list N) (c : N) :
  isspace c = false →
  re_sub_empty (match_length prompt_artifact) 0 (l ++ [c])
    = if is_prompt c then l else l ++ [c].
Proof.
  intros Hc. induction l as [|d l IH].
  - cbn [app re_sub_empty]. unfold match_length, prompt_artifact.
    cbn [lstrip]. by destruct (is_prompt c).
  - cbn [app re_sub_empty].
    assert (match_length prompt_artifact (d :: l ++ [c]) = None) as ->.
    { unfold match_length, prompt_artifact.
      destruct (is_prompt d); [|done].
      pose proof (lstrip_clean_last l c Hc).
      by destruct (lstrip (l ++ [c])). }
    rewrite IH. by destruct (is_prompt c).
Qed.

Lemma insert_last {A} (init : list A) (l y : A) :
  <[pred (length (init ++ [l])) := y]> (init ++ [l]) = init ++ [y].
Proof.
  rewrite length_app. cbn [length].
  replace (pred (length init + 1)) with (length init + 0) by lia.
  by rewrite insert_app_r.
Qed.

(** X8: the cleaned output is the output without its trailing white space,
    and without its last character too when that is one of [%], [$], [#]
    and [>]; everything before is kept as it is, line breaks and prompt
    characters of earlier lines included. *)
Theorem remove_last_line_artifacts_spec (output : list N) :
  _remove_last_line_artifacts output =
    match last (rstrip output) with
    | Some c =>
      if is_prompt c then removelast (rstrip output) else rstrip output
    | None => []
    end.
Proof.
  unfold _remove_last_line_artifacts.
  pose proof (rstrip_clean_last output) as Hclean.
  destruct (split_nl_last (rstrip output))
    as (init & l & prefix & Hs & E & Hl & Hj & Hp).
  rewrite Hs, last_snoc, insert_last, Hj.
  destruct (rstrip output) as [|c0 s0] eqn:Es using rev_ind.
  { destruct prefix, l; done. }
  clear IHs0. rename c0 into c, s0 into s.
  rewrite last_snoc, removelast_last.
  rewrite reverse_snoc in Hclean. cbn [clean_head] in Hclean.
  destruct l as [|d l0 _] using rev_ind.
  - rewrite app_nil_r in E. destruct Hp as [->|[q ->]].
    + by destruct s.
    + apply app_inj_tail in E as [_ ->]. done.
  - rewrite app_assoc in E. apply app_inj_tail in E as [-> ->].
    rewrite prompt_sub_line by done.
    destruct (is_prompt d); [done|by rewrite app_assoc].
Qed.

Lemma get_unretrieved_output_unfold (p : TerminalProcess) :
  get_unretrieved_output p =
    (Return (_remove_last_line_artifacts
               (slice_from_index (_output_buffer p) (_last_retrieved_index p))),
     set_last_retrieved_index (Z.of_nat (length (_output_buffer p))) p).
Proof. reflexivity. Qed.

Lemma slice_from_index_end (s new : list N) :
  slice_from_index (s ++ new) (Z.of_nat (length s)) = new.
Proof.
  unfold slice_from_index.
  destruct (Z.ltb_spec (Z.of_nat (length s)) 0) as [?|_]; [lia|].
  rewrite length_app, Z.min_l by lia.
  by rewrite Nat2Z.id, drop_app_length.
Qed.

Lemma remove_last_line_artifacts_empty : _remove_last_line_artifacts [] = [].
Proof. reflexivity. Qed.

(** X9: [get_unretrieved_output] hands out each piece of output once.  After
    a call, the next call returns exactly the cleaned text of the chunk the
    reader has processed in between, with the artifacts of its last line
    removed, and a call with no new output in between returns the empty
    string. *)
Theorem output_retrieved_once `{Unicode} (p : TerminalProcess) (data : list N) :
  process_reachable p →
  let p1 := (get_unretrieved_output p).2 in
  let p2 := (_process_output data p1).2 in
  (get_unretrieved_output p2).1
    = Return (_remove_last_line_artifacts
                (_handle_vscode_sequences (_strip_ansi data))) ∧
  (get_unretrieved_output (get_unretrieved_output p2).2).1 = Return [] ∧
  (get_unretrieved_output p1).1 = Return [].
Proof.
  intros Hp%buffer_never_set p1 p2. subst p1 p2.
  rewrite (get_unretrieved_output_unfold p). cbn [snd].
  rewrite process_output_unset by done. cbn [snd].
  rewrite !get_unretrieved_output_unfold. cbn [fst snd].
  cbn [set_output_buffer set_last_retrieved_index _output_buffer
       _last_retrieved_index].
  rewrite slice_from_index_end.
  split_and!; [done| |].
  - set (b := _output_buffer p ++ _).
    by rewrite <-(app_nil_r b) at 1; rewrite slice_from_index_end.
  - set (b := _output_buffer p).
    by rewrite <-(app_nil_r b) at 1; rewrite slice_from_index_end.
Qed.

Lemma output_retrieved_once_witness :
  let p1 := (get_unretrieved_output (started (py "ls") None)).2 in
  let p2 := (@_process_output ascii_case (py "a.txt
$ ") p1).2 in
  (get_unretrieved_output p2).1 = Return (py "a.txt
").
Proof.
  intros p1 p2.
  apply (@output_retrieved_once ascii_case (started (py "ls") None) (py "a.txt
$ ")).
  apply started_reachable.
Defined.

(** ** The terminal manager: the two id tables *)

(** X10: in a manager a program can reach, the id of a registered terminal
    never names a process: [get_unretrieved_output] returns the empty
    string for it and changes nothing, and [is_process_hot] is false. *)
Theorem terminal_id_has_no_output (m : TerminalManager) (tid : nat) :
  manager_reachable m → is_Some (_terminals m !! tid) →
  TerminalManager_get_unretrieved_output tid m = (Return [], m) ∧
  is_process_hot tid m = false.
Proof.
  intros (_ & _ & Hd)%reachable_ids_apart Htid.
  unfold TerminalManager_get_unretrieved_output, is_process_hot.
  by rewrite (Hd tid Htid).
Qed.

Lemma terminal_id_has_no_output_witness :
  let m := (run_command (py "ls") None
              (create_terminal None TerminalManager_init).2).2 in
  TerminalManager_get_unretrieved_output 0 m = (Return [], m) ∧
  is_process_hot 0 m = false.
Proof.
  intros m. apply (terminal_id_has_no_output m 0).
  - eapply rtc_l; [apply (step_create_terminal None)|].
    apply rtc_once. apply (step_run_command (py "ls") None).
  - by eexists.
Defined.

(** ** The terminal manager: listing the terminals *)

Lemma get_terminal_tracked (tid : nat) (m : TerminalManager) :
  (get_terminal tid m).1 = Return (tracked m tid).
Proof.
  unfold get_terminal, tracked. destruct (_terminals m !! tid) as [info|]; [|done].
  cbn. by destruct (process_gone_cold m info).
Qed.

Lemma get_terminal_tracked_after (t tid : nat) (m : TerminalManager) :
  tracked (get_terminal t m).2 tid = tracked m tid.
Proof.
  rewrite get_terminal_state.
  destruct (culled m [t] t) eqn:Hc; [|done].
  unfold tracked. rewrite remove_terminal_terminals.
  destruct (decide (tid = t)) as [->|Hne].
  - rewrite lookup_delete_eq. unfold culled in Hc.
    apply andb_true_iff in Hc as [_ Hc].
    destruct (_terminals m !! t) as [info|]; [|done]. cbn in *. by rewrite Hc.
  - rewrite lookup_delete_ne by done.
    destruct (_terminals m !! tid) as [info|]; [|done]. cbn.
    rewrite (process_gone_cold_ext m (remove_terminal t m)); [done|].
    intros l. apply remove_terminal_hot.
Qed.

Lemma list_omap_pointwise {A B} (f g : A → option B) (l : list A) :
  (∀ x, f x = g x) → omap f l = omap g l.
Proof. intros Hfg. induction l as [|x l IH]; [done|]. cbn. by rewrite Hfg, IH. Qed.

Lemma omap_cons_unfold {A B} (f : A → option B) (x : A) (l : list A) :
  omap f (x :: l) =
    match f x with Some y => y :: omap f l | None => omap f l end.
Proof. reflexivity. Qed.

(** The loop of [get_all_terminals] returns what the lookups would have
    returned at its start, in the order of [ids]. *)
Lemma collect_terminals_tracked (ids : list nat) :
  ∀ (active : list TerminalInfo) (m : TerminalManager),
    (collect_terminals ids active m).1 = Return (active ++ omap (tracked m) ids) ∧
    ∀ tid, tracked (collect_terminals ids active m).2 tid = tracked m tid.
Proof.
  induction ids as [|t ids IH]; intros active m.
  - cbn. by rewrite app_nil_r.
  - cbn [collect_terminals omap]. rewrite bind_unfold.
    pose proof (get_terminal_tracked t m) as Hr.
    pose proof (λ tid, get_terminal_tracked_after t tid m) as Hafter.
    destruct (get_terminal t m) as [r m1]. cbn [fst snd] in *. subst r.
    rewrite omap_cons_unfold.
    destruct (tracked m t) as [info|];
      rewrite (list_omap_pointwise (tracked m) (tracked m1)) by done.
    + destruct (IH (active ++ [info]) m1) as [E Ht].
      split; [by rewrite E, <-app_assoc|]. intros tid. by rewrite Ht.
    + destruct (IH active m1) as [E Ht].
      split; [done|]. intros tid. by rewrite Ht.
Qed.

(** With no cold terminal among them, the loop changes nothing. *)
Lemma collect_terminals_settled (ids : list nat) (active : list TerminalInfo)
    (m : TerminalManager) :
  (∀ tid info, _terminals m !! tid = Some info → process_gone_cold m info = false) →
  (collect_terminals ids active m).2 = m.
Proof.
  intros Hwarm. revert active. induction ids as [|t ids IH]; intros active; [done|].
  cbn [collect_terminals]. rewrite bind_unfold.
  assert (get_terminal t m = (Return (tracked m t), m)) as ->.
  { unfold get_terminal, tracked.
    destruct (_terminals m !! t) as [info|] eqn:E; [|done].
    cbn. by rewrite (Hwarm t info E). }
  destruct (tracked m t); apply IH.
Qed.

Lemma tracked_Some (m : TerminalManager) (tid : nat) (info : TerminalInfo) :
  tracked m tid = Some info ↔
  _terminals m !! tid = Some info ∧ process_gone_cold m info = false.
Proof.
  unfold tracked. destruct (_terminals m !! tid) as [i|]; cbn.
  - destruct (process_gone_cold m i) eqn:E; split.
    + done.
    + intros [[= ->] ?]. congruence.
    + intros [= ->]. done.
    + by intros [[= ->] _].
  - split; [done|by intros [? _]].
Qed.

(** X11: [get_all_terminals] returns the registered terminals that hold no
    cold process object, and only those stay registered, with their entries
    unchanged.  Called again at once, it changes nothing and returns the
    same terminals. *)
Theorem get_all_terminals_settles (m : TerminalManager) :
  ∃ infos m',
    get_all_terminals m = (Return infos, m') ∧
    (∀ info, info ∈ infos ↔
       ∃ tid, _terminals m !! tid = Some info ∧ process_gone_cold m info = false) ∧
    (∀ tid info, _terminals m' !! tid = Some info ↔
       _terminals m !! tid = Some info ∧ process_gone_cold m info = false) ∧
    ∃ infos', get_all_terminals m' = (Return infos', m') ∧ infos' ≡ₚ infos.
Proof.
  set (ids := elements (dom (_terminals m))).
  destruct (collect_terminals_spec ids [] m) as (infos & m' & E & Hhot & Ht & _).
  destruct (collect_terminals_tracked ids [] m) as [Hinfos Htracked].
  rewrite E in Hinfos, Htracked. cbn [fst snd app] in *.
  injection Hinfos as ->.
  assert (∀ tid info, _terminals m' !! tid = Some info ↔
            _terminals m !! tid = Some info ∧ process_gone_cold m info = false)
    as Hleft.
  { intros tid info. rewrite Ht. unfold culled.
    destruct (_terminals m !! tid) as [i|] eqn:Ei; cbn.
    - rewrite bool_decide_eq_true_2
        by (apply elem_of_elements, elem_of_dom; by eexists).
      cbn. destruct (process_gone_cold m i) eqn:Ec; split.
      + done.
      + intros [[= ->] ?]. congruence.
      + intros [= ->]. done.
      + by intros [[= ->] _].
    - rewrite andb_false_r. split; [done|by intros [? _]]. }
  assert (∀ tid info, _terminals m' !! tid = Some info →
            process_gone_cold m' info = false) as Hwarm.
  { intros tid info [_ Hc]%Hleft.
    by rewrite (process_gone_cold_ext m m'). }
  exists (omap (tracked m) ids), m'. split_and!.
  - unfold get_all_terminals. by rewrite bind_get.
  - intros info. rewrite list_elem_of_omap. split.
    + intros (tid & _ & Hi%tracked_Some). by exists tid.
    + intros (tid & Hi & Hc). exists tid. split.
      * apply elem_of_elements, elem_of_dom. by eexists.
      * by apply tracked_Some.
  - done.
  - set (ids' := elements (dom (_terminals m'))).
    exists (omap (tracked m') ids'). split.
    + unfold get_all_terminals. rewrite bind_get. fold ids'.
      pose proof (collect_terminals_settled ids' [] m' Hwarm) as Hm'.
      destruct (collect_terminals_tracked ids' [] m') as [Hr _].
      destruct (collect_terminals ids' [] m') as [r m'']. cbn [fst snd app] in *.
      by subst.
    + rewrite (list_omap_pointwise (tracked m') (tracked m)) by done.
      assert (ids' ≡ₚ filter (λ tid, is_Some (tracked m tid)) ids) as ->.
      { apply NoDup_Permutation.
        - apply NoDup_elements.
        - apply NoDup_filter, NoDup_elements.
        - intros tid. unfold ids', ids.
          rewrite list_elem_of_filter, !elem_of_elements, !elem_of_dom.
          split.
          + intros [info Hi]. pose proof Hi as [Hm Hc]%Hleft.
            split; [|by eexists]. exists info. by apply tracked_Some.
          + intros [[info [Hi Hc]%tracked_Some] _]. exists info. by apply Hleft. }
      generalize ids. intros l. induction l as [|x l IH]; [done|].
      rewrite filter_cons. destruct (decide (is_Some (tracked m x))) as [[i Hi]|Hn].
      * cbn. rewrite Hi. by f_equiv.
      * cbn. destruct (tracked m x) eqn:Ex; [|done].
        destruct Hn. by eexists.
Qed.

(** ** The terminal manager: disposing of the processes *)

Lemma terminate_at_lookup (l l' : positive) (objs : gmap positive TerminalProcess) :
  terminate_at l objs !! l' =
    if decide (l = l') then terminated_process <$> objs !! l' else objs !! l'.
Proof.
  unfold terminate_at, terminated_process.
  destruct (decide (l = l')) as [<-|Hne].
  - destruct (objs !! l) as [p|] eqn:E; [|by rewrite E].
    destruct (_process p) eqn:Ep.
    + rewrite lookup_insert_eq. cbn. by rewrite Ep.
    + rewrite E. cbn. by rewrite Ep.
  - destruct (objs !! l) as [p|]; [|done].
    destruct (_process p); [|done]. by rewrite lookup_insert_ne.
Qed.

Lemma terminated_process_idemp (p : TerminalProcess) :
  terminated_process (terminated_process p) = terminated_process p.
Proof.
  unfold terminated_process.
  destruct (_process p) eqn:E; cbn; by rewrite ?E.
Qed.

Lemma terminate_all_lookup (ls : list positive) :
  ∀ (objs : gmap positive TerminalProcess) (l : positive),
    foldl (λ objs l, terminate_at l objs) objs ls !! l =
      if decide (l ∈ ls) then terminated_process <$> objs !! l else objs !! l.
Proof.
  induction ls as [|l0 ls IH]; intros objs l; cbn [foldl].
  - destruct (decide (l ∈ [])) as [H|_]; [|done]. by apply elem_of_nil in H.
  - rewrite IH, terminate_at_lookup.
    destruct (decide (l ∈ l0 :: ls)) as [Hin|Hnin],
      (decide (l ∈ ls)) as [Hin'|Hnin'], (decide (l0 = l)) as [->|Hne];
      try done.
    + rewrite <-option_fmap_compose. apply option_fmap_ext.
      intros p. apply terminated_process_idemp.
    + apply elem_of_cons in Hin as [?|?]; congruence.
    + destruct Hnin. by right.
    + destruct Hnin. by right.
    + destruct Hnin. by left.
Qed.

(** X12: [dispose_all] sends the termination signal to the subprocess of
    every registered process object and empties the process table, so that
    afterwards no id is hot for the manager or has output.  Objects that
    were not registered are untouched; the terminals stay registered, the
    id counter is not reset and no hot flag changes. *)
Theorem dispose_all_terminates (m : TerminalManager) :
  (∀ tid l p po,
     _processes m !! tid = Some l → objects m !! l = Some p →
     _process p = Some po →
     subprocess_terminated (dispose_all m) l = true) ∧
  (∀ l, (∀ tid, _processes m !! tid ≠ Some l) →
     objects (dispose_all m) !! l = objects m !! l) ∧
  (∀ l, is_hot <$> objects (dispose_all m) !! l = is_hot <$> objects m !! l) ∧
  (∀ tid, is_process_hot tid (dispose_all m) = false ∧
     TerminalManager_get_unretrieved_output tid (dispose_all m)
       = (Return [], dispose_all m)) ∧
  _terminals (dispose_all m) = _terminals m ∧
  _next_id (dispose_all m) = _next_id m.
Proof.
  assert (∀ l, l ∈ (map_to_list (_processes m)).*2 ↔
               ∃ tid, _processes m !! tid = Some l) as Hreg.
  { intros l. rewrite list_elem_of_fmap. split.
    - intros ([tid l'] & -> & Hin%elem_of_map_to_list). by exists tid.
    - intros [tid Htid]. exists (tid, l). split; [done|].
      by apply elem_of_map_to_list. }
  split_and!; try done.
  - intros tid l p po Hl Hp Hpo.
    unfold subprocess_terminated, dispose_all. cbn [objects].
    rewrite terminate_all_lookup, decide_True by (apply Hreg; by exists tid).
    rewrite Hp. cbn. unfold terminated_process. by rewrite Hpo.
  - intros l Hl. unfold dispose_all. cbn [objects].
    rewrite terminate_all_lookup, decide_False; [done|].
    intros [tid Htid]%Hreg. by apply (Hl tid).
  - intros l. unfold dispose_all. cbn [objects].
    rewrite terminate_all_lookup.
    destruct (decide _); [|done].
    rewrite <-option_fmap_compose. apply option_fmap_ext.
    intros p. unfold compose, terminated_process. by destruct (_process p).
Qed.

(** ** The tool manager: the registry as a whole *)

Section tool_registry_facts.
Context (md5_hexdigest : list N → list N).


Lemma remove_tool_return (name : list N) (r r' : registry) :
  remove_tool name r = (Return tt, r') →
  is_Some (EXTENDED_TOOLS r !! name) ∧
  EXTENDED_TOOLS r' = delete name (EXTENDED_TOOLS r) ∧
  tools r' = delete name (tools r) ∧
  tool_versions r' = delete name (tool_versions r).
Proof.
  unfold remove_tool. rewrite bind_get. case_bool_decide as Hin; [|done].
  destruct (tools r !! name); [|done]. by intros [= <-].
Qed.









Lemma update_tool_present (now name code description : list N)
    (r r' : registry) :
  update_tool md5_hexdigest now name code description r = (Return tt, r') →
  is_Some (tools r !! name).
Proof.
  unfold update_tool. rewrite bind_get. case_bool_decide; [|done].
  rewrite bind_unfold.
  destruct (_validate_tool_code code r) as [[[]|e] r1] eqn:Ev;
    apply validate_tool_code_state in Ev as ->; [|done].
  destruct (tools r !! name); [by eexists|done].
Qed.

(** X18: what the registry answers after a successful call.  After
    [add_tool], [get_tool] returns an editable extended tool with the given
    name and description; after [update_tool] it returns the tool with the
    new description; after [remove_tool] it raises the "not found" error
    and the version history of the name is empty. *)
Theorem get_tool_after_call (c : call) (r : registry) :
  (perform md5_hexdigest c r).1 = Return tt →
  let r' := (perform md5_hexdigest c r).2 in
  match c with
  | call_add _ name descr _ =>
    get_tool name r' = (Return (ExtendedTool name descr true), r')
  | call_update _ name _ descr =>
    ∃ t, get_tool name r' = (Return t, r') ∧ description t = descr
  | call_remove name =>
    get_tool name r'
      = (Raise (ValueError (py "Tool '" ++ name ++ py "' not found")), r') ∧
    get_tool_versions name r' = []
  end.
Proof.
  intros E r'. subst r'.
  destruct (perform md5_hexdigest c r) as [o r'] eqn:Ep.
  cbn [fst snd] in *. subst o.
  destruct c as [now name descr code|now name code descr|name];
    cbn [perform] in Ep.
  - apply add_tool_return in Ep as (_ & _ & Ht & _).
    unfold get_tool. by rewrite Ht, lookup_insert_eq.
  - destruct (update_tool_present _ _ _ _ _ _ Ep) as [t Ht].
    apply update_tool_return in Ep as (_ & _ & Htools & _).
    exists (set_description descr t). unfold get_tool.
    rewrite Htools, lookup_alter_eq, Ht. cbn. split; [done|by destruct t].
  - apply remove_tool_return in Ep as (_ & _ & Ht & Hv).
    unfold get_tool, get_tool_versions.
    by rewrite Ht, Hv, !lookup_delete_eq.
Qed.
End tool_registry_facts.







Lemma get_tool_after_call_witness :
  let c := call_add (py "2025-01-01T00:00:00") (py "test_tool")
             (py "Test tool") (py "lambda x: x") in
  let r' := (perform no_digest c (ToolManager_init ∅)).2 in
  get_tool (py "test_tool") r'
  = (Return (ExtendedTool (py "test_tool") (py "Test tool") true), r').
Proof.
  intros c r'. apply (get_tool_after_call no_digest c (ToolManager_init ∅)).
  by vm_compute.
Defined.

(** ** The diff view provider: a modify session, saved and reverted *)




Lemma revert_modify (w : world DiffViewProvider) (rel : list (list N))
    (c1 : list N) :
  rel_path (self w) = Some rel → is_modify (self w) = true →
  disk w !! (cwd (self w) ++ rel) = Some (File c1) →
  revert_changes w =
    (Return tt,
     World (reset (World (self w) (disk w))).2.(self)
           (<[cwd (self w) ++ rel :=
                File (default [] (original_content (self w)))]> (disk w))).
Proof.
  intros Hrel Hmod Hfile. unfold revert_changes.
  rewrite bind_get, Hrel, Hmod. cbn [negb].
  rewrite bind_unfold, write_file_unfold, Hfile. reflexivity.
Qed.



(** ** The diff view provider: after the session *)

Lemma reset_unfold (w : world DiffViewProvider) :
  reset w = (Return tt, World (reset w).2.(self) (disk w)).
Proof. reflexivity. Qed.

(** X20: [reset] ends the session but keeps [rel_path] and [new_content].
    After it (and so after [revert_changes]) an [update] raises
    [ValueError], and [save_changes] writes nothing and reports no content,
    whatever content is still recorded. *)
Theorem after_reset_nothing_is_written (w : world DiffViewProvider)
    (content : list N) (is_final : bool) :
  let w' := (reset w).2 in
  rel_path (self w') = rel_path (self w) ∧
  new_content (self w') = new_content (self w) ∧
  disk w' = disk w ∧
  update content is_final w'
    = (Raise (ValueError (py "Required values not set")), w') ∧
  save_changes w'
    = (Return {| new_problems_message := None; user_edits := None;
                 final_content := None |}, w').
Proof.
  intros w'. subst w'. split_and!; try done.
  - unfold update. rewrite bind_get. cbn [reset on_self modify snd self].
    cbn [rel_path active_line_controller faded_overlay_controller].
    by destruct (rel_path (self w)).
  - unfold save_changes. rewrite bind_get. cbn [reset on_self modify snd self].
    cbn [rel_path new_content active_diff_editor].
    destruct (rel_path (self w)); [|done].
    by destruct (new_content (self w)) as [[|]|].
Qed.

(** X21: reverting twice deletes the file of a modify session.  The first
    [revert_changes] writes the original content back and resets the
    provider, which forgets the edit kind but not the path; a second
    [revert_changes] then treats the file as one the session had created
    and unlinks it. *)
Theorem second_revert_unlinks (w : world DiffViewProvider)
    (rel : list (list N)) (c : list N) :
  rel_path (self w) = Some rel → is_modify (self w) = true →
  disk w !! (cwd (self w) ++ rel) = Some (File c) →
  let w1 := (revert_changes w).2 in
  (revert_changes w).1 = Return tt ∧
  disk w1 !! (cwd (self w) ++ rel)
    = Some (File (default [] (original_content (self w)))) ∧
  (revert_changes w1).1 = Return tt ∧
  disk (revert_changes w1).2 = delete (cwd (self w) ++ rel) (disk w).
Proof.
  intros Hrel Hmod Hfile w1. subst w1.
  rewrite (revert_modify w rel c) by done. cbn [fst snd disk].
  split; [done|]. split; [apply lookup_insert_eq|].
  unfold revert_changes at 1 2. rewrite !bind_get.
  cbn [reset on_self modify snd self rel_path cwd created_dirs disk].
  rewrite Hrel. change (is_modify _) with false. cbn [negb].
  rewrite !bind_unfold, unlink_unfold. cbn [disk self].
  rewrite lookup_insert_eq. change (reverse []) with (@nil (list (list N))).
  cbn [for_each]. cbn [mret M_ret on_disk modify disk self fst snd reset on_self].
  by rewrite delete_insert_eq.
Qed.

Lemma second_revert_unlinks_witness :
  let w := World (set_rel_path (Some [py "notes.txt"])
                    (set_edit_type (Some (py "modify")) (DiffViewProvider_init [])))
             {[ [] := Dir; [py "notes.txt"] := File (py "abc") ]} in
  disk (revert_changes (revert_changes w).2).2
    = delete [py "notes.txt"] (disk w).
Proof.
  intros w. apply (second_revert_unlinks w [py "notes.txt"] (py "abc")).
  - reflexivity.
  - reflexivity.
  - reflexivity.
Defined.

(** ** The diff view provider: a new file below missing directories *)

(** X22: [open] cannot create a file whose directory and the directory
    above it are both missing.  The missing directories are made nearest
    first with a plain [mkdir], so the first one fails with
    [FileNotFoundError]; nothing is created on the disk, and the provider is
    left marked as editing, with the path set and no editor or decoration
    controller attached. *)
Theorem open_below_missing_directories_raises (w : world DiffViewProvider)
    (rel : list (list N)) :
  well_formed (disk w) → is_modify (self w) = false →
  disk w !! parent (cwd (self w) ++ rel) = None →
  disk w !! parent (parent (cwd (self w) ++ rel)) = None →
  open rel w =
    (Raise FileNotFoundError,
     World (set_original_content (Some [])
              (set_is_editing true (set_rel_path (Some rel) (self w))))
           (disk w)).
Proof.
  intros Hwf Hmod Hpar Hgrand. unfold open.
  step. step. rewrite !is_modify_set_rel_path, Hmod. step. step.
  rewrite bind_unfold. unfold _create_directories_for_file.
  assert (cwd (self w) ++ rel ≠ []) as Hne.
  { intros E. rewrite E in Hpar. destruct Hwf as [Hroot _].
    change (parent []) with (@nil (list N)) in Hpar. congruence. }
  rewrite parents_unfold by done. cbn [create_missing].
  rewrite bind_unfold, exists_unfold. cbn [disk].
  rewrite bool_decide_eq_false_2 by (rewrite Hpar; by intros [? ?]).
  rewrite bind_unfold, mkdir_unfold. cbn [disk]. by rewrite Hpar, Hgrand.
Qed.

Lemma open_below_missing_directories_raises_witness :
  (open [py "src"; py "pkg"; py "a.py"]
     (World (DiffViewProvider_init []) {[ [] := Dir ]})).1
  = Raise FileNotFoundError.
Proof.
  rewrite (open_below_missing_directories_raises
             (World (DiffViewProvider_init []) {[ [] := Dir ]})
             [py "src"; py "pkg"; py "a.py"]).
  - reflexivity.
  - by_compute.
  - reflexivity.
  - reflexivity.
  - reflexivity.
Defined.

(** ** The diff view provider: the decorations during a session *)

Lemma filter_end_line_twice (a b : nat) (rs : list TextRange) :
  a ≤ b →
  filter (λ r, end_line r < b) (filter (λ r, end_line r < a) rs)
    = filter (λ r, end_line r < a) rs.
Proof.
  intros Hab. induction rs as [|r rs IH]; [done|].
  rewrite (filter_cons (λ r, end_line r < a)).
  destruct (decide (end_line r < a)); [|done].
  rewrite filter_cons, decide_True by lia. by rewrite IH.
Qed.

(** The loop of [update] over the new lines ends at the last line: what it
    leaves of the overlay are the ranges that ended before the first new
    line, and the active line is the last one. *)
Lemma stream_lines_ranges (count : nat) :
  ∀ (first total : nat) (faded active : DecorationController),
    first + count = total → 0 < count →
    ranges (stream_lines first count total faded active).1
      = filter (λ r, end_line r < first) (ranges faded) ∧
    ranges (stream_lines first count total faded active).2
      = [{| start_line := total - 1; end_line := total - 1 |}].
Proof.
  induction count as [|count IH]; intros first total faded active Hsum Hpos; [lia|].
  cbn [stream_lines]. destruct count as [|count].
  - cbn [stream_lines fst snd update_overlay_after_line set_active_line ranges].
    rewrite bool_decide_eq_false_2 by lia.
    split; [done|]. do 2 f_equal; lia.
  - destruct (IH (S first) total
                (update_overlay_after_line first total faded)
                (set_active_line first active)) as [-> ->]; [lia..|].
    split; [|done].
    cbn [update_overlay_after_line ranges].
    rewrite bool_decide_eq_true_2 by lia.
    rewrite filter_app, filter_end_line_twice by lia.
    rewrite filter_cons, decide_False by (cbn; lia).
    by rewrite filter_nil, app_nil_r.
Qed.

Lemma update_decorations (w : world DiffViewProvider) (rel : list (list N))
    (faded active : DecorationController) (content : list N) (is_final : bool) :
  rel_path (self w) = Some rel →
  faded_overlay_controller (self w) = Some faded →
  active_line_controller (self w) = Some active →
  ranges faded = [] → length (ranges active) ≤ 1 →
  ∃ d faded' active',
    update content is_final w = (Return tt, World d (disk w)) ∧
    rel_path d = Some rel ∧
    faded_overlay_controller d = Some faded' ∧
    active_line_controller d = Some active' ∧
    ranges faded' = [] ∧ length (ranges active') ≤ 1 ∧
    (is_final = true → ranges active' = []).
Proof.
  intros Hrel Hf Ha Hfr Har. unfold update.
  rewrite bind_get, Hrel, Ha, Hf. rewrite bind_on_self. dvp_simpl.
  set (lines := if is_final then split_nl content
                else removelast (split_nl content)).
  set (first := length (streamed_lines (self w))).
  assert (ranges (stream_lines first (length (drop first lines)) (length lines)
                    faded active).1 = [] ∧
          length (ranges (stream_lines first (length (drop first lines))
                            (length lines) faded active).2) ≤ 1) as [Hf' Ha'].
  { destruct (length (drop first lines)) as [|k] eqn:Ek; [done|].
    rewrite length_drop in Ek.
    destruct (stream_lines_ranges (S k) first (length lines) faded active)
      as [-> ->]; [lia..|].
    by rewrite Hfr. }
  destruct (stream_lines _ _ _ faded active) as [faded' active'].
  cbn [fst snd] in *.
  rewrite bind_on_self, bind_on_self. dvp_simpl.
  destruct is_final.
  - rewrite on_self_unfold. unfold _finalize_update. dvp_simpl.
    cbn [fmap option_fmap option_map].
    eexists. exists (clear faded'), (clear active'). split; [reflexivity|].
    dvp_simpl. split_and!; try done. cbn. lia.
  - eexists. exists faded', active'. split; [reflexivity|].
    dvp_simpl. split_and!; done.
Qed.

Lemma open_decorations (w w1 : world DiffViewProvider) (rel : list (list N)) :
  open rel w = (Return tt, w1) →
  rel_path (self w1) = Some rel ∧
  faded_overlay_controller (self w1)
    = Some (DecorationController_init (py "fadedOverlay")) ∧
  active_line_controller (self w1)
    = Some (DecorationController_init (py "activeLine")).
Proof.
  intros Hopen. destruct (open_session _ _ _ Hopen) as ((Hrel & _) & _).
  split; [done|]. revert Hopen.
  unfold open. rewrite bind_on_self, bind_get. dvp_simpl.
  rewrite bind_on_self. dvp_simpl.
  intros E. apply bind_return_inv in E as ([] & wa & Ea & E).
  apply bind_return_inv in E as (created & wb & Eb & E).
  rewrite bind_on_self in E.
  apply bind_return_inv in E as ([] & wc & Ec & E).
  apply bind_return_inv in E as (editor & wd & Ed & E).
  rewrite bind_on_self, bind_on_self, on_self_unfold in E.
  by injection E as <-.
Qed.

(** X23: during a session the faded overlay never marks a line.  After a
    successful [open], every sequence of [update] calls returns with the
    overlay controller holding no range, because the loop over the new lines
    always ends at the last line; the active-line controller holds at most
    one range. *)
Theorem faded_overlay_stays_empty (w w1 : world DiffViewProvider)
    (rel : list (list N)) (calls : list (list N * bool)) :
  open rel w = (Return tt, w1) →
  ∃ d faded active,
    updates calls w1 = (Return tt, World d (disk w1)) ∧
    faded_overlay_controller d = Some faded ∧ ranges faded = [] ∧
    active_line_controller d = Some active ∧ length (ranges active) ≤ 1.
Proof.
  intros (Hrel & Hf & Ha)%open_decorations.
  assert (∀ (w : world DiffViewProvider) faded active,
            rel_path (self w) = Some rel →
            faded_overlay_controller (self w) = Some faded →
            active_line_controller (self w) = Some active →
            ranges faded = [] → length (ranges active) ≤ 1 →
            ∃ d faded' active',
              updates calls w = (Return tt, World d (disk w)) ∧
              faded_overlay_controller d = Some faded' ∧ ranges faded' = [] ∧
              active_line_controller d = Some active' ∧
              length (ranges active') ≤ 1) as Hgen.
  { clear. unfold updates.
    induction calls as [|[content is_final] calls IH];
      intros w faded active Hrel Hf Ha Hfr Har.
    - exists (self w), faded, active. by destruct w.
    - cbn [for_each]. rewrite bind_unfold. cbn [fst snd].
      destruct (update_decorations w rel faded active content is_final)
        as (d1 & f1 & a1 & -> & Hrel1 & Hf1 & Ha1 & Hfr1 & Har1 & _); [done..|].
      destruct (IH (World d1 (disk w)) f1 a1) as (d & f & a & E & ?); [done..|].
      by exists d, f, a. }
  apply (Hgen w1 _ _ Hrel Hf Ha); [done|]. cbn. lia.
Qed.

Lemma faded_overlay_stays_empty_witness :
  let w := World (DiffViewProvider_init [py "proj"])
             {[ [] := Dir; [py "proj"] := Dir ]} in
  let w1 := (open [py "a.py"] w).2 in
  ∃ d faded active,
    updates [(py "x = 1
y = 2
z", false)] w1 = (Return tt, World d (disk w1)) ∧
    faded_overlay_controller d = Some faded ∧ ranges faded = [] ∧
    active_line_controller d = Some active ∧ length (ranges active) ≤ 1.
Proof.
  intros w w1.
  apply (faded_overlay_stays_empty w w1 [py "a.py"]). reflexivity.
Defined.

(** ** The terminal process: what holds in every reachable state *)

(** X24: in every state a process object can reach, a hot session has the
    normal 2-second timer pending, and only that one: output never re-arms
    the timer and the 15-second compiling timeout is never used.  No line
    event is ever emitted: the only events are the completed and continue
    events of a reader that saw no output. *)
Theorem hot_means_normal_timer_pending `{Unicode} (p : TerminalProcess) :
  process_reachable p →
  (is_hot p = true →
   _hot_timer p = Some {| delay := PROCESS_HOT_TIMEOUT_NORMAL; fired := false |}) ∧
  (∀ t, _hot_timer p = Some t → delay t = PROCESS_HOT_TIMEOUT_NORMAL) ∧
  Forall (λ e, type e = COMPLETED ∨ type e = CONTINUE) (emitted p).
Proof.
  unfold process_reachable. revert p.
  apply rtc_ind_r; [done|]. intros q p Hq Hstep (IHhot & IHt & IHe).
  pose proof (buffer_never_set q Hq) as Hb.
  destruct Hstep as [command cwd q|data q|chunks q|q].
  - split_and!; [done| |done]. by intros t [= <-].
  - by rewrite process_output_unset.
  - unfold _read_output. rewrite bind_get. destruct (_process q); [|done].
    rewrite bind_unfold. destruct chunks as [|data chunks].
    + cbn. split_and!; [done|done|].
      change (Forall (λ e, type e = COMPLETED ∨ type e = CONTINUE)
                ((emitted q ++ [{| type := COMPLETED; data := None |}])
                   ++ [{| type := CONTINUE; data := None |}])).
      rewrite !Forall_app. split_and!; [done|..]; repeat constructor; cbn; tauto.
    + cbn [for_each]. rewrite bind_unfold, process_output_unset by done.
      cbn [snd]. split_and!; [exact IHhot|exact IHt|exact IHe].
  - unfold timer_fires. unfold is_hot in *.
    destruct (_hot_timer q) as [[d []]|] eqn:Et.
    + rewrite Et. by split_and!.
    + split_and!; [done| |done].
      intros t [= <-]. cbn. by apply (IHt _ eq_refl).
    + rewrite Et. by split_and!.
Qed.

Lemma hot_means_normal_timer_pending_witness :
  _hot_timer (started (py "npm run dev") None)
  = Some {| delay := PROCESS_HOT_TIMEOUT_NORMAL; fired := false |}.
Proof.
  apply (@hot_means_normal_timer_pending ascii_case
           (started (py "npm run dev") None)).
  - apply rtc_once. apply (@step_run ascii_case).
  - reflexivity.
Defined.

(** ** The terminal manager: a command from start to removal *)

